(** * cq-cam: address formatting, command chain and the Drill sequencer

    A shallow embedding of [cq_cam/address.py] and
    [cq_cam/operations/drill.py], with the parts of [cq_cam/command.py] and
    [cq_cam/utils/utils.py] they rely on.

    Numbers.  Python's [float] coordinates are embedded as rationals [Q],
    with exact subtraction, product and [round]: the rounding error of
    binary floating point is not modelled.  Python's [==] and [!=] on
    numbers are [Qeq_bool] and its negation, so that two representations of
    one rational compare equal, exactly as [0.0 == -0.0] does in Python.
    Values typed [int] in the source (tool numbers, spindle speeds) are
    [Z].  [None] is [option]'s [None]. *)

From Stdlib Require Import ZArith QArith Qabs Qround Qpower Lqa.
From Stdlib Require Import List String Ascii Bool Lia Permutation.
From Stdlib Require Import DecimalString.
From Stdlib Require Import Reals Qreals.
Import ListNotations.

Local Open Scope string_scope.
Local Open Scope Q_scope.

(** ** Python built-ins used by the source *)

(** A Python number as [str] sees it: [f"{1}"] is ["1"] but [f"{1.0}"] is
    ["1.0"], so formatting depends on the dynamic type. *)
Inductive pynum : Type :=
| PyInt (z : Z)
| PyFloat (q : Q).

(** [str] of an [int]: its decimal numeral. *)
Definition str_int (z : Z) : string := NilZero.string_of_int (Z.to_int z).

(** Round to the nearest integer, ties to even: what [round] does on the
    scaled value. *)
Definition round_half_even (q : Q) : Z :=
  let f := Qfloor q in
  match Qcompare (q - inject_Z f) (1 # 2) with
  | Lt => f
  | Gt => (f + 1)%Z
  | Eq => if Z.even f then f else (f + 1)%Z
  end.

(** Python's [round(x, ndigits)] on the exact value of [x]. *)
Definition round (x : Q) (ndigits : Z) : Q :=
  let scale := (10 # 1) ^ ndigits in
  Qred (inject_Z (round_half_even (x * scale)) / scale).

(** [" ".join(coords)] and its relatives. *)
Definition join (sep : string) (l : list string) : string := String.concat sep l.

(** The line feed ["\n"]. *)
Definition nl : string := String (ascii_of_nat 10) EmptyString.

(** [s != ""] *)
Definition nonempty (s : string) : bool :=
  match s with EmptyString => false | String _ _ => true end.

(** ** [cq.Vector]: a fully specified 3D point *)

Record Vector : Type := mkVector { vx : Q; vy : Q; vz : Q }.

(** ** address.py *)

(** [class AddressVector]: each axis is a number or [None]. *)
Record AddressVector : Type := mkAddressVector {
  x : option Q;
  y : option Q;
  z : option Q
}.

(** [AddressVector()] : every axis defaults to [None]. *)
Definition AddressVector_default : AddressVector := mkAddressVector None None None.

(** [AddressVector.from_vector] *)
Definition from_vector (v : Vector) : AddressVector :=
  mkAddressVector (Some (vx v)) (Some (vy v)) (Some (vz v)).

(** [AddressVector.to_vector(self, origin, relative=False)] *)
Definition to_vector (self : AddressVector) (origin : Vector) (relative : bool) : Vector :=
  if relative then
    let x' := match x self with None => 0 | Some sx => sx - vx origin end in
    let y' := match y self with None => 0 | Some sy => sy - vy origin end in
    let z' := match z self with None => 0 | Some sz => sz - vz origin end in
    mkVector x' y' z'
  else
    let x' := match x self with None => vx origin | Some sx => sx end in
    let y' := match y self with None => vy origin | Some sy => sy end in
    let z' := match z self with None => vz origin | Some sz => sz end in
    mkVector x' y' z'.

(** [class GCodeLetter(Enum)] *)
Inductive GCodeLetter : Type :=
| LXAxis | LYAxis | LZAxis
| LArcXAxis | LArcYAxis | LArcZAxis
| LFeed | LSpeed | LDwellTime | LToolNumber | LRadiusOffset | LLengthOffset.

(** [GCodeLetter.__str__]: the enum member's value. *)
Definition letter_str (l : GCodeLetter) : string :=
  match l with
  | LXAxis => "X" | LYAxis => "Y" | LZAxis => "Z"
  | LArcXAxis => "I" | LArcYAxis => "J" | LArcZAxis => "K"
  | LFeed => "F" | LSpeed => "S" | LDwellTime => "P"
  | LToolNumber => "T" | LRadiusOffset => "D" | LLengthOffset => "H"
  end.

(** Modelled from the spec: [cq_cam/utils/utils.py] ([optimize_float]) is
    missing.  Section 4.1: after rounding, "strip insignificant trailing
    zeros and a trailing decimal point if the result is integral": an
    integral value becomes an [int], any other value is left as it is. *)
Definition optimize_float (v : Q) : pynum :=
  let r := Qred v in
  if (Zpos (Qden r) =? 1)%Z then PyInt (Qnum r) else PyFloat v.

Section Formatting.

(** Python's text for a [float] ([repr]'s shortest round-trip numeral) is
    a built-in of the language and depends on the binary representation;
    the development is parametric in it. *)
Variable float_repr : Q -> string.

(** [f"{n}"] for a number. *)
Definition str_num (n : pynum) : string :=
  match n with
  | PyInt i => str_int i
  | PyFloat q => float_repr q
  end.

(** [class GCodeWord] and its subclass [GCodeWordPrecision]. *)
Inductive GCodeWord : Type :=
| Word (letter : GCodeLetter) (address : option pynum)
| WordPrecision (letter : GCodeLetter) (address : option Q) (precision : Z).

(** [GCodeWord.__str__] and [GCodeWordPrecision.__str__] *)
Definition word_str (w : GCodeWord) : string :=
  match w with
  | Word letter address =>
      match address with
      | Some a => letter_str letter ++ str_num a
      | None => ""
      end
  | WordPrecision letter address precision =>
      match address with
      | Some a =>
          let address_opt := optimize_float (round a precision) in
          letter_str letter ++ str_num address_opt
      | None => ""
      end
  end.

(** The word classes: each fixes the letter. *)
Definition XAxis (address : option Q) (precision : Z) := WordPrecision LXAxis address precision.
Definition YAxis (address : option Q) (precision : Z) := WordPrecision LYAxis address precision.
Definition ZAxis (address : option Q) (precision : Z) := WordPrecision LZAxis address precision.
Definition ArcXAxis (address : option Q) (precision : Z) := WordPrecision LArcXAxis address precision.
Definition ArcYAxis (address : option Q) (precision : Z) := WordPrecision LArcYAxis address precision.
Definition ArcZAxis (address : option Q) (precision : Z) := WordPrecision LArcZAxis address precision.
Definition Feed (address : option Q) := Word LFeed (option_map PyFloat address).
Definition Speed (address : option Z) := Word LSpeed (option_map PyInt address).
Definition DwellTime (address : option Q) := Word LDwellTime (option_map PyFloat address).
Definition ToolNumber (address : option Z) := Word LToolNumber (option_map PyInt address).
Definition ToolLengthOffset (address : option Z) := Word LLengthOffset (option_map PyInt address).
Definition ToolRadiusOffset (address : option Z) := Word LRadiusOffset (option_map PyInt address).

(** What an axis slot of a group holds: [IJK.__init__] leaves the plain
    string [""] in a slot it does not fill, the other slots hold words. *)
Inductive axis_slot : Type :=
| SlotStr (s : string)
| SlotWord (w : GCodeWord).

(** [str(slot)] *)
Definition slot_str (a : axis_slot) : string :=
  match a with
  | SlotStr s => s
  | SlotWord w => word_str w
  end.

(** [class GCodeAxisGroup] *)
Record GCodeAxisGroup : Type := mkGroup {
  axis_1 : axis_slot;
  axis_2 : axis_slot;
  axis_3 : axis_slot
}.

(** [GCodeAxisGroup.__str__] *)
Definition group_str (g : GCodeAxisGroup) : string :=
  let coords : list string := [] in
  let a1 := slot_str (axis_1 g) in
  let a2 := slot_str (axis_2 g) in
  let a3 := slot_str (axis_3 g) in
  let coords := if nonempty a1 then (coords ++ [a1])%list else coords in
  let coords := if nonempty a2 then (coords ++ [a2])%list else coords in
  let coords := if nonempty a3 then (coords ++ [a3])%list else coords in
  join " " coords.

(** [XYZ.__init__] *)
Definition XYZ (end_ : AddressVector) (precision : Z) : GCodeAxisGroup :=
  mkGroup (SlotWord (XAxis (x end_) precision))
          (SlotWord (YAxis (y end_) precision))
          (SlotWord (ZAxis (z end_) precision)).

(** [center.x != 0]: [None != 0] is true in Python. *)
Definition neq_zero (c : option Q) : bool :=
  match c with
  | None => true
  | Some v => negb (Qeq_bool v 0)
  end.

(** [IJK.__init__] *)
Definition IJK (center : AddressVector) (precision : Z) : GCodeAxisGroup :=
  let a1 := SlotStr "" in
  let a2 := SlotStr "" in
  let a3 := SlotStr "" in
  let a1 := if neq_zero (x center) then SlotWord (ArcXAxis (x center) precision) else a1 in
  let a2 := if neq_zero (y center) then SlotWord (ArcYAxis (y center) precision) else a2 in
  let a3 := if neq_zero (z center) then SlotWord (ArcZAxis (z center) precision) else a3 in
  mkGroup a1 a2 a3.

End Formatting.

(** ** command.py *)

(** Modelled from the spec: [cq_cam/command.py] is missing; only its tests
    ([tests/test_gcode.py]) and its caller ([operations/drill.py]) are in the
    repository.  The data model follows section 3 ("CoolantState",
    "Command"), the directives section 4.3 and the motion rendering
    section 4.2.  Where the spec's words and the repository's tests differ
    (the restart line of [ToolChange]), the tests are followed: they are the
    repository's own record of what the code prints. *)
Inductive CoolantState : Type := OFF | MIST | FLOOD.

(** Modelled from the spec: the coolant-on word of [StartSequence] ("M8
    flood / M7 mist", "OFF emits nothing"). *)
Definition coolant_on (coolant : option CoolantState) : string :=
  match coolant with
  | Some FLOOD => "M8"
  | Some MIST => "M7"
  | Some OFF | None => ""
  end.

(** Modelled from the spec: the coolant-off word of [StopSequence] ("M9 if
    coolant is not OFF"). *)
Definition coolant_off (coolant : option CoolantState) : string :=
  match coolant with
  | Some FLOOD | Some MIST => "M9"
  | Some OFF | None => ""
  end.

(** Modelled from the spec: the motion kinds of section 3 that move the
    tool. *)
Inductive CommandKind : Type :=
| KRapid | KCut | KPlungeCut | KCircularCW | KCircularCCW.

(** Modelled from the spec: the command letter of a kind, section 4.2
    step 3: "G0 for rapid, G1 for linear cut/plunge, G2/G3 for CW/CCW
    arcs". *)
Definition modal (k : CommandKind) : string :=
  match k with
  | KRapid => "G0"
  | KCut | KPlungeCut => "G1"
  | KCircularCW => "G2"
  | KCircularCCW => "G3"
  end.

(** Modelled from the spec: a [Command] of section 3: the start it was
    given, its end specification, its kind, an optional feed rate and, for
    arcs, a center specification. *)
Record Command : Type := mkCommand {
  kind : CommandKind;
  start : AddressVector;
  end_ : AddressVector;
  feed : option Q;
  center : option AddressVector
}.

(** Modelled from the spec: [Rapid.abs(x, y, z, start=...)] as [drill.py]
    calls it: an absolute end specification with the axes given. *)
Definition Rapid_abs (x y z : option Q) (start : AddressVector) : Command :=
  mkCommand KRapid start (mkAddressVector x y z) None None.

(** Modelled from the spec: [PlungeCut.abs(z=..., feed=..., start=...)]. *)
Definition PlungeCut_abs (z : option Q) (feed : option Q) (start : AddressVector) : Command :=
  mkCommand KPlungeCut start (mkAddressVector None None z) feed None.

(** Modelled from the spec: [utils.flatten_list] is missing; section 4.4
    step 4: "the full flattened list". *)
Definition flatten_list {A : Type} (l : list (list A)) : list A := List.concat l.

Section Rendering.

Variable float_repr : Q -> string.

(** The text of one coordinate: rounded, then optimized (section 4.1). *)
Definition coord_str (letter : GCodeLetter) (v : Q) (precision : Z) : string :=
  word_str float_repr (WordPrecision letter (Some v) precision).

(** Modelled from the spec: [StartSequence(speed, coolant)]: "M3 optionally
    followed by S<speed>, optionally followed by coolant-on, all on one
    line, space-joined". *)
Definition StartSequence_to_gcode (speed : option Z) (coolant : option CoolantState) : string :=
  join " " (filter nonempty ["M3"; word_str float_repr (Speed speed); coolant_on coolant]).

(** Modelled from the spec: [StopSequence(coolant)]: "M5, optionally
    followed by coolant-off". *)
Definition StopSequence_to_gcode (coolant : option CoolantState) : string :=
  join " " (filter nonempty ["M5"; coolant_off coolant]).

(** Modelled from the spec: [SafetyBlock()]: the constant four-line
    preamble. *)
Definition SafetyBlock_to_gcode : string :=
  join nl ["G90 G54 G64 G50 G17 G94"; "G49 G40 G80"; "G21"; "G30"].

(** Modelled from the spec: [ToolChange(tool_number, speed, coolant)]:
    StopSequence, [G30], [M1], the tool line, then StartSequence.  The
    restart passes the coolant on, as every [test_tool_change_*] case of
    [tests/test_gcode.py] expects. *)
Definition ToolChange_to_gcode (tool_number : Z) (speed : option Z)
    (coolant : option CoolantState) : string :=
  join nl [ StopSequence_to_gcode coolant;
            "G30";
            "M1";
            join " " [ word_str float_repr (ToolNumber (Some tool_number));
                       "G43";
                       word_str float_repr (ToolLengthOffset (Some tool_number));
                       "M6" ];
            StartSequence_to_gcode speed coolant ].

(** Modelled from the spec: section 4.2 steps 2 and 3 for the XYZ part:
    the end is resolved absolutely against [start] and "only axes that
    actually differ from start" are printed, without separators (the
    tests expect ["G1X10Y5Z1"]). *)
Definition xyz_gcode (self : Command) (start : Vector) (precision : Z) : string * Vector :=
  let e := to_vector (end_ self) start false in
  let coords : list string := [] in
  let coords := if negb (Qeq_bool (vx start) (vx e))
                then (coords ++ [coord_str LXAxis (vx e) precision])%list else coords in
  let coords := if negb (Qeq_bool (vy start) (vy e))
                then (coords ++ [coord_str LYAxis (vy e) precision])%list else coords in
  let coords := if negb (Qeq_bool (vz start) (vz e))
                then (coords ++ [coord_str LZAxis (vz e) precision])%list else coords in
  (join "" coords, e).

(** Modelled from the spec: section 4.2, "Arc center handling": "the IJK
    group is computed as the offset from start to center"; an axis the
    center specifies is printed even when its offset is zero (the tests
    expect ["G2X1I1J0"]). *)
Definition ijk_gcode (center : AddressVector) (start : Vector) (precision : Z) : string :=
  let c := to_vector center start true in
  let ijk : list string := [] in
  let ijk := match x center with
             | Some _ => (ijk ++ [coord_str LArcXAxis (vx c) precision])%list
             | None => ijk end in
  let ijk := match y center with
             | Some _ => (ijk ++ [coord_str LArcYAxis (vy c) precision])%list
             | None => ijk end in
  let ijk := match z center with
             | Some _ => (ijk ++ [coord_str LArcZAxis (vz c) precision])%list
             | None => ijk end in
  join "" ijk.

(** Modelled from the spec: section 4.2 steps 1 to 4: command letter, XYZ
    part, IJK part for arcs, feed word for the kinds that cut; returns the
    text and the resolved end position. *)
Definition to_gcode (self : Command) (start : Vector) (precision : Z) : string * Vector :=
  let '(xyz, e) := xyz_gcode self start precision in
  let ijk := match center self with
             | Some c => ijk_gcode c start precision
             | None => ""
             end in
  let f := match kind self with
           | KRapid => ""
           | _ => word_str float_repr (Feed (feed self))
           end in
  (modal (kind self) ++ xyz ++ ijk ++ f, e).

End Rendering.

(** Modelled from the spec: [CircularCW(end=..., center=..., mid=...)] of
    the tests; [mid] plays no part in the text. *)
Definition CircularCW (end' center' : AddressVector) : Command :=
  mkCommand KCircularCW AddressVector_default end' None (Some center').

(** Modelled from the spec: [Cut.abs(x, y, z)] of the tests. *)
Definition Cut_abs (x y z : option Q) : Command :=
  mkCommand KCut AddressVector_default (mkAddressVector x y z) None None.

(** ** operations/strategy.py *)

(** A 2D drill target: the tuple [(point.x, point.y)]. *)
Definition point : Type := (Q * Q)%type.

(** Python's [==] on two such tuples: component-wise numeric equality. *)
Definition point_eqb (p q : point) : bool :=
  Qeq_bool (fst p) (fst q) && Qeq_bool (snd p) (snd q).

(** The square of the Euclidean distance. *)
Definition dist2 (a b : point) : Q :=
  (fst a - fst b) * (fst a - fst b) + (snd a - snd b) * (snd a - snd b).

(** The Euclidean distance itself, as a real number. *)
Definition euclid (a b : point) : R := sqrt (Q2R (dist2 a b)).

(** Modelled from the spec: the scan behind [_pick_nearest] (see below):
    [best] is the nearest option met so far, replaced only by a strictly
    nearer one. *)
Fixpoint pick_nearest_from (p best : point) (options : list point) : point :=
  match options with
  | [] => best
  | c :: rest =>
      if Qle_bool (dist2 p best) (dist2 p c)
      then pick_nearest_from p best rest
      else pick_nearest_from p c rest
  end.

(** Modelled from the spec: [Strategy._pick_nearest] ([operations/strategy.py])
    is missing.  Section 4.4 step 2: "select, from the remaining unvisited
    set, the target with minimum Euclidean distance to the last visited
    point; ties are implementation-defined but must be deterministic".
    Distances are compared through their squares, and among equally near
    options the earliest one is returned, as Python's [min] does.  On an
    empty list there is nothing to return ([None] stands for the
    exception). *)
Definition _pick_nearest (p : point) (options : list point) : option point :=
  match options with
  | [] => None
  | c :: rest => Some (pick_nearest_from p c rest)
  end.

(** ** Python list methods used by [drill.py] *)

(** [l.index(v)]: the position of the first element equal to [v]; [None]
    stands for [ValueError]. *)
Fixpoint index (v : point) (l : list point) : option nat :=
  match l with
  | [] => None
  | c :: rest =>
      if point_eqb c v then Some O
      else match index v rest with
           | Some i => Some (S i)
           | None => None
           end
  end.

(** [l.pop(i)]: the list without its [i]-th element; [None] stands for
    [IndexError]. *)
Fixpoint pop (i : nat) (l : list point) : option (list point) :=
  match l, i with
  | [], _ => None
  | _ :: rest, O => Some rest
  | c :: rest, S j =>
      match pop j rest with
      | Some rest' => Some (c :: rest')
      | None => None
      end
  end.

(** ** operations/drill.py *)

(** The read-only job configuration [Drill] consults: [job.top.toWorldCoords],
    [job.op_safe_height] and [job.feed]. *)
Record Job : Type := mkJob {
  toWorldCoords : Vector -> Vector;
  op_safe_height : Q;
  job_feed : Q
}.

(** [OperationError(message)] *)
Inductive OperationError : Type :=
| OperationError_ (message : string).

(** How a run of [__post_init__] ends.  [Stuck] stands for what the source
    cannot do on the inputs considered: a built-in raising ([ValueError],
    [IndexError]) or the [while] loop not finishing within its fuel. *)
Inductive outcome : Type :=
| Returned
| Raised (e : OperationError)
| Stuck.

(** The double quote. *)
Definition dquote : string := String (ascii_of_nat 34) EmptyString.

Definition err_o_missing : OperationError :=
  OperationError_ "o must be defined".
Definition err_depth_missing : OperationError :=
  OperationError_ "depth must be defined".
Definition err_unsupported (type_name : string) : OperationError :=
  OperationError_ ("Object type " ++ dquote ++ type_name ++ dquote
                   ++ " not supported by Profile operation").
Definition err_nothing_to_do : OperationError :=
  OperationError_ "Given wp does not contain anything to do".

(** The [while drill_points:] loop of [__post_init__] (lines 65 to 72).
    [if last] tests a 2-tuple, which is true whatever its components are,
    so only the initial [None] takes the [else] branch.  Every round pops
    one point, so [fuel] bounds the rounds; [None] is [Stuck]. *)
Fixpoint order_loop (fuel : nat) (last : option point)
    (drill_points ordered_drill_points : list point) : option (list point) :=
  match drill_points with
  | [] => Some ordered_drill_points
  | first :: _ =>
      match fuel with
      | O => None
      | S fuel' =>
          let drill_point :=
            match last with
            | Some l => _pick_nearest l drill_points
            | None => Some first
            end in
          match drill_point with
          | None => None
          | Some drill_point =>
              let ordered_drill_points := (ordered_drill_points ++ [drill_point])%list in
              match index drill_point drill_points with
              | None => None
              | Some i =>
                  match pop i drill_points with
                  | None => None
                  | Some drill_points' =>
                      order_loop fuel' (Some drill_point) drill_points' ordered_drill_points
                  end
              end
          end
      end
  end.

(** The ordering of the drill points: the loop started with [last = None]
    and an empty result. *)
Definition order_drill_points (drill_points : list point) : option (list point) :=
  order_loop (List.length drill_points) None drill_points [].

(** The four commands of one target (lines 76 to 86), with the running
    [previous_pos]; returns [ops] and the new [previous_pos]. *)
Definition drill_ops (job : Job) (depth : Q) (pt : point) (previous_pos : AddressVector)
    : list Command * AddressVector :=
  let ops : list Command := [] in
  let c := Rapid_abs None None (Some (op_safe_height job)) previous_pos in
  let ops := (ops ++ [c])%list in
  let previous_pos := end_ c in
  let c := Rapid_abs (Some (fst pt)) (Some (snd pt)) None previous_pos in
  let ops := (ops ++ [c])%list in
  let previous_pos := end_ c in
  let c := Rapid_abs None None (Some 0) previous_pos in
  let ops := (ops ++ [c])%list in
  let previous_pos := end_ c in
  let c := PlungeCut_abs (Some depth) (Some (job_feed job)) previous_pos in
  let ops := (ops ++ [c])%list in
  let previous_pos := end_ c in
  (ops, previous_pos).

(** The [for point in ordered_drill_points:] loop (lines 75 to 87). *)
Fixpoint cut_loop (job : Job) (depth : Q) (points : list point)
    (previous_pos : AddressVector) (cut_sequences : list (list Command))
    : list (list Command) * AddressVector :=
  match points with
  | [] => (cut_sequences, previous_pos)
  | pt :: rest =>
      let '(ops, previous_pos) := drill_ops job depth pt previous_pos in
      cut_loop job depth rest previous_pos (cut_sequences ++ [ops])%list
  end.

Section Drill.

(** The shapes of the geometry kernel (CadQuery), which is outside the
    repository: wires, faces, any other object, and what [o] may be. *)
Variables Wire Face Foreign OInput : Type.

(** [cq.Face.makeFromWires(wire).Center()] *)
Variable makeFromWires_Center : Wire -> Vector.
(** [face.innerWires()] and [face.outerWire()] *)
Variable innerWires : Face -> list Wire.
Variable outerWire : Face -> Wire.
(** [type(obj)] as the error message prints it. *)
Variable type_name : Foreign -> string.

(** An element of [_o_objects(o)], by the [isinstance] case it falls in. *)
Inductive obj : Type :=
| OVector (v : Vector)
| OWire (w : Wire)
| OFace (f : Face)
| OForeign (t : Foreign).

(** [Operation._o_objects] ([operations/base_operation.py]) is missing: it
    lists the objects of [o]. *)
Variable _o_objects : OInput -> list obj.

(** The fields of a [Drill] that [__post_init__] reads or writes. *)
Record Drill : Type := mkDrill {
  job : Job;
  o : option OInput;
  depth : option Q;
  previous_pos : option AddressVector;
  commands : list Command
}.

(** The extraction loop (lines 39 to 57): [inr] is the raised error. *)
Fixpoint extract (transform_f : Vector -> Vector) (objs : list obj)
    (drill_vectors : list Vector) : list Vector + OperationError :=
  match objs with
  | [] => inl drill_vectors
  | ob :: rest =>
      match ob with
      | OVector v =>
          extract transform_f rest (drill_vectors ++ [transform_f v])%list
      | OWire w =>
          extract transform_f rest
            (drill_vectors ++ [transform_f (makeFromWires_Center w)])%list
      | OFace f =>
          match innerWires f with
          | _ :: _ =>
              extract transform_f rest
                (drill_vectors
                 ++ map (fun wire => transform_f (makeFromWires_Center wire))
                        (innerWires f))%list
          | [] =>
              extract transform_f rest
                (drill_vectors
                 ++ [transform_f (makeFromWires_Center (outerWire f))])%list
          end
      | OForeign t => inr (err_unsupported (type_name t))
      end
  end.

(** [Drill.__post_init__]: the object as the method leaves it, and how the
    method ended.  [self.previous_pos] is kept in [pos] while it runs; lines
    30 and 31 store the default when none was given. *)
Definition post_init (self : Drill) : Drill * outcome :=
  let transform_f := toWorldCoords (job self) in
  let drill_vectors : list Vector := [] in
  let pos :=
    match previous_pos self with
    | None => AddressVector_default
    | Some given => given
    end in
  let self := mkDrill (job self) (o self) (depth self) (Some pos) (commands self) in
  match o self with
  | None => (self, Raised err_o_missing)
  | Some o_ =>
  match depth self with
  | None => (self, Raised err_depth_missing)
  | Some depth_ =>
  match extract transform_f (_o_objects o_) drill_vectors with
  | inr e => (self, Raised e)
  | inl drill_vectors =>
  match drill_vectors with
  | [] => (self, Raised err_nothing_to_do)
  | _ :: _ =>
  let drill_points := map (fun p => (vx p, vy p)) drill_vectors in
  match order_drill_points drill_points with
  | None => (self, Stuck)
  | Some ordered_drill_points =>
  let depth' := - Qabs depth_ in
  let '(cut_sequences, pos) := cut_loop (job self) depth' ordered_drill_points pos [] in
  let cut_sequences := flatten_list cut_sequences in
  (mkDrill (job self) (o self) (depth self) (Some pos) cut_sequences, Returned)
  end end end end end.

End Drill.

Arguments OVector {Wire Face Foreign} v.
Arguments OWire {Wire Face Foreign} w.
Arguments OFace {Wire Face Foreign} f.
Arguments OForeign {Wire Face Foreign} t.
Arguments mkDrill {OInput} job o depth previous_pos commands.
Arguments job {OInput} d.
Arguments o {OInput} d.
Arguments depth {OInput} d.
Arguments previous_pos {OInput} d.
Arguments commands {OInput} d.
Arguments extract {Wire Face Foreign} makeFromWires_Center innerWires outerWire type_name
  transform_f objs drill_vectors.
Arguments post_init {Wire Face Foreign OInput} makeFromWires_Center innerWires outerWire
  type_name _o_objects self.

(** ** Concrete instances for the examples *)

(** The fractional digits of [num / den], for [0 <= num < den]: at most
    [fuel] of them, trailing zeros left out. *)
Fixpoint frac_digits (fuel : nat) (num den : Z) : string :=
  match fuel with
  | O => ""
  | S fuel' =>
      if (num =? 0)%Z then ""
      else String (ascii_of_nat (48 + Z.to_nat (num * 10 / den)))
                  (frac_digits fuel' (num * 10 mod den) den)
  end.

(** An instance of [float_repr]: the decimal numeral of a value with at
    most 17 fractional digits, with [.0] after an integral value, as Python
    prints the floats nearest to such values. *)
Definition float_repr_decimal (q : Q) : string :=
  let a := Qabs q in
  let i := Qfloor a in
  let frac := frac_digits 17 (Qnum a - i * Zpos (Qden a)) (Zpos (Qden a)) in
  (if Qle_bool 0 q then "" else "-")
  ++ str_int i ++ "."
  ++ match frac with EmptyString => "0" | String _ _ => frac end.

(** A geometry kernel small enough to compute with: a wire is known by the
    center of its face, a face by its inner wires and its outer wire, any
    other object by the name of its type, and [o] is a list of objects. *)
Definition sample_obj : Type := obj Vector (list Vector * Vector) string.

Definition sample_post_init (self : Drill (list sample_obj)) : Drill (list sample_obj) * outcome :=
  post_init (fun w : Vector => w) fst snd (fun t : string => t)
            (fun l : list sample_obj => l) self.

(** A job with the identity transform, safe height 10 and feed rate 100. *)
Definition sample_job : Job := mkJob (fun v => v) (10 # 1) (100 # 1).

(** A Drill over three points given as A, C, B, a wire and a face with two
    holes, depth 3, no previous position. *)
Definition sample_drill : Drill (list sample_obj) :=
  mkDrill sample_job
    (Some [OVector (mkVector 0 0 0);
           OVector (mkVector (10 # 1) 0 0);
           OVector (mkVector (5 # 1) 0 (7 # 1));
           OWire (mkVector (5 # 1) (1 # 2) 0);
           OFace ([mkVector (-3 # 1) 0 0; mkVector (20 # 1) (20 # 1) 0],
                  mkVector 0 0 0)])
    (Some (3 # 1)) None [].

(** What [__post_init__] leaves of it. *)
Definition sample_built : Drill (list sample_obj) := fst (sample_post_init sample_drill).

(** Drills that cannot be constructed, over lists of sample objects: one
    names its [o] and its depth. *)
Definition bare_drill (o : option (list sample_obj)) (depth : option Q)
    : Drill (list sample_obj) :=
  mkDrill sample_job o depth None [].

(** The same Drill once [__post_init__] has been entered. *)
Definition bare_drill_entered (o : option (list sample_obj)) (depth : option Q)
    : Drill (list sample_obj) :=
  mkDrill sample_job o depth (Some AddressVector_default) [].

Definition one_point : list sample_obj := [OVector (mkVector 0 0 0)].

Definition point_and_edge : list sample_obj :=
  [OVector (mkVector 0 0 0); OForeign "Edge"].

(** ** Vocabulary of the statements *)

(** The token an axis of an XYZ group contributes: one word when the axis
    is specified, nothing otherwise. *)
Definition xyz_tokens (float_repr : Q -> string) (letter : GCodeLetter)
    (a : option Q) (precision : Z) : list string :=
  match a with
  | Some v => [coord_str float_repr letter v precision]
  | None => []
  end.

(** The token an axis of an IJK group contributes: one word when the axis
    is specified and its value is not zero, nothing otherwise. *)
Definition ijk_tokens (float_repr : Q -> string) (letter : GCodeLetter)
    (a : option Q) (precision : Z) : list string :=
  match a with
  | Some v => if Qeq_bool v 0 then [] else [coord_str float_repr letter v precision]
  | None => []
  end.

(** The lines of a program text. *)
Definition lines (l : list string) : string := join nl l.

(** The number of line feeds in a text. *)
Fixpoint count_nl (s : string) : nat :=
  match s with
  | EmptyString => O
  | String c rest => ((if Ascii.eqb c (ascii_of_nat 10) then 1 else 0) + count_nl rest)%nat
  end.

(** The number of lines of a text: one more than its line feeds. *)
Definition line_count (s : string) : nat := S (count_nl s).

(** A run of [nearest_chain last l]: every point of [l] is, when it is
    visited, at minimum Euclidean distance from the point visited just
    before it, among itself and all the points visited after it (the points
    not yet visited at that moment). *)
Fixpoint nearest_chain (last : point) (l : list point) : Prop :=
  match l with
  | [] => True
  | b :: suf =>
      (forall c, In c (b :: suf) -> (euclid last b <= euclid last c)%R) /\
      nearest_chain b suf
  end.

(** The four commands of one target, as section 4.4 step 3 words them:
    (a) a rapid with only Z set, to the safe height, (b) a rapid with X and
    Y set, to the target, (c) a rapid with only Z set, to 0, (d) a plunge
    cut with only Z set, to [zcut], carrying the feed rate; each starts
    where the one before it ends, the first one at [prev]. *)
Definition target_commands (safe feed_rate zcut : Q) (pt : point) (prev : AddressVector)
    : list Command :=
  let a := mkCommand KRapid prev (mkAddressVector None None (Some safe)) None None in
  let b := mkCommand KRapid (end_ a)
             (mkAddressVector (Some (fst pt)) (Some (snd pt)) None) None None in
  let c := mkCommand KRapid (end_ b) (mkAddressVector None None (Some 0)) None None in
  let d := mkCommand KPlungeCut (end_ c)
             (mkAddressVector None None (Some zcut)) (Some feed_rate) None in
  [a; b; c; d].

(** The concatenation of the targets' commands, in visiting order; a later
    target starts at the end of the plunge before it. *)
Fixpoint drill_program (safe feed_rate zcut : Q) (targets : list point)
    (prev : AddressVector) : list Command :=
  match targets with
  | [] => []
  | pt :: rest =>
      (target_commands safe feed_rate zcut pt prev
       ++ drill_program safe feed_rate zcut rest
            (mkAddressVector None None (Some zcut)))%list
  end.

(** The chain-threading invariant over a command list: every command but
    the first starts where the command before it ends. *)
Fixpoint chained (l : list Command) : Prop :=
  match l with
  | [] => True
  | a :: tl =>
      match tl with
      | [] => True
      | b :: _ => start b = end_ a /\ chained tl
      end
  end.

(** The position a [Drill] starts from: the one supplied, or the
    all-unspecified vector. *)
Definition initial_pos {OInput : Type} (self : Drill OInput) : AddressVector :=
  match previous_pos self with
  | Some given => given
  | None => AddressVector_default
  end.

(** The same [Drill] with another depth. *)
Definition with_depth {OInput : Type} (self : Drill OInput) (d : option Q) : Drill OInput :=
  mkDrill (job self) (o self) d (previous_pos self) (commands self).

(** ** address.py: [AddressVector.__eq__] *)

(** [a == b] on two axis values: [None == None] is true, [None] equals no
    number, two numbers compare by value. *)
Definition axis_eqb (a b : option Q) : bool :=
  match a, b with
  | None, None => true
  | Some u, Some v => Qeq_bool u v
  | _, _ => false
  end.

(** An attribute of the object [__eq__] is handed: missing (reading it
    raises [AttributeError]) or holding a number or [None]. *)
Inductive attr : Type :=
| Missing
| Has (v : option Q).

(** The [other] of [__eq__], as far as the method looks at it: its [x], [y]
    and [z] attributes. *)
Record pyobject : Type := mkObject { attr_x : attr; attr_y : attr; attr_z : attr }.

(** An [AddressVector] and a [cq.Vector] seen as such objects. *)
Definition object_of_address (a : AddressVector) : pyobject :=
  mkObject (Has (x a)) (Has (y a)) (Has (z a)).
Definition object_of_vector (v : Vector) : pyobject :=
  mkObject (Has (Some (vx v))) (Has (Some (vy v))) (Has (Some (vz v))).

(** What [__eq__] returns. *)
Inductive eq_result : Type :=
| EqBool (b : bool)
| NotImplemented.

(** [AddressVector.__eq__(self, other)]: the [and] chain reads the
    attributes of [other] from left to right and stops at the first
    comparison that is false; a missing attribute that is read makes the
    method return [NotImplemented]. *)
Definition AddressVector_eq (self : AddressVector) (other : pyobject) : eq_result :=
  match attr_x other with
  | Missing => NotImplemented
  | Has ox =>
      if axis_eqb (x self) ox then
        match attr_y other with
        | Missing => NotImplemented
        | Has oy =>
            if axis_eqb (y self) oy then
              match attr_z other with
              | Missing => NotImplemented
              | Has oz => EqBool (axis_eqb (z self) oz)
              end
            else EqBool false
        end
      else EqBool false
  end.

(** ** utils/circle_bug_workaround.py *)

Section CircleBug.

(** The placement of a shape ([TopLoc_Location]) and its inverse belong to
    the geometry kernel. *)
Variable Location : Type.
Variable Inverted : Location -> Location.

(** A wire as the function looks at it: the [geomType()] of each of its
    [Edges()], in order, and the location of the wrapped shape. *)
Record CadWire : Type := mkWire {
  edge_types : list string;
  location : Location
}.

(** The wires live in a store and are named by their address, so that a
    wire passed twice, or the source passed among the targets, is one
    object. *)
Definition wire_store : Type := nat -> CadWire.

Definition store_set (h : wire_store) (i : nat) (w : CadWire) : wire_store :=
  fun j => if Nat.eqb j i then w else h j.

(** The inner loop [for i, target_edge in enumerate(target_wire.Edges())]:
    [apply_fix] is raised by a ["CIRCLE"] edge whose index is below the
    number of source edges. *)
Fixpoint scan_edges (n_source : nat) (i : nat) (edges : list string)
    (apply_fix : bool) : bool :=
  match edges with
  | [] => apply_fix
  | target_edge :: rest =>
      let apply_fix :=
        if String.eqb target_edge "CIRCLE"
        then (if Nat.ltb i n_source then true else apply_fix)
        else apply_fix in
      scan_edges n_source (S i) rest apply_fix
  end.

(** [circle_bug_workaround(source_wire, target_wires)]: the store as the
    function leaves it. *)
Fixpoint circle_bug_workaround (h : wire_store) (source_wire : nat)
    (target_wires : list nat) : wire_store :=
  match target_wires with
  | [] => h
  | target_wire :: rest =>
      let source_edges := edge_types (h source_wire) in
      let apply_fix :=
        scan_edges (List.length source_edges) 0 (edge_types (h target_wire)) false in
      let h :=
        if apply_fix
        then store_set h target_wire
               (mkWire (edge_types (h target_wire))
                       (Inverted (location (h source_wire))))
        else h in
      circle_bug_workaround h source_wire rest
  end.

End CircleBug.

Arguments mkWire {Location} edge_types location.
Arguments edge_types {Location} c.
Arguments location {Location} c.
Arguments store_set {Location} h i w.
Arguments circle_bug_workaround {Location} Inverted h source_wire target_wires.

(** ** More vocabulary *)

(** Numeric equality of two positions, axis by axis. *)
Definition Veq (u v : Vector) : Prop :=
  vx u == vx v /\ vy u == vy v /\ vz u == vz v.

(** Two moves laid over each other: an axis of the later one where it is
    specified, of the earlier one otherwise. *)
Definition overlay (later earlier : AddressVector) : AddressVector :=
  mkAddressVector
    (match x later with Some v => Some v | None => x earlier end)
    (match y later with Some v => Some v | None => y earlier end)
    (match z later with Some v => Some v | None => z earlier end).

(** An edge list calls for the fix when one of its first [n_source] edges
    is a circle. *)
Definition circle_within (n_source : nat) (edges : list string) : bool :=
  existsb (fun e => String.eqb e "CIRCLE") (firstn n_source edges).

(** Modelled from the spec: the forward pass of section 4.2 (steps 1, 2
    and 4) over a command list: each command's end is resolved absolutely
    against the position reached so far, which becomes the start of the
    next one; the positions reached, in order. *)
Fixpoint resolve_chain (pos : Vector) (cmds : list Command) : list Vector :=
  match cmds with
  | [] => []
  | c :: rest =>
      let e := to_vector (end_ c) pos false in
      e :: resolve_chain e rest
  end.

(** The positions of a drilling pass: over each target the tool rises to
    the safe height where it stands, travels to the target at that height,
    comes down to Z = 0 and plunges to [zcut]. *)
Fixpoint drill_positions (safe zcut : Q) (at_xy : point) (targets : list point)
    : list Vector :=
  match targets with
  | [] => []
  | pt :: rest =>
      (mkVector (fst at_xy) (snd at_xy) safe
       :: mkVector (fst pt) (snd pt) safe
       :: mkVector (fst pt) (snd pt) 0
       :: mkVector (fst pt) (snd pt) zcut
       :: drill_positions safe zcut pt rest)%list
  end.

(** The chain of C1 with the distances compared through their squares: it
    is what the ordering loop can test. *)
Fixpoint nearest_chain2 (last : point) (l : list point) : Prop :=
  match l with
  | [] => True
  | b :: suf =>
      (forall c, In c (b :: suf) -> dist2 last b <= dist2 last c) /\
      nearest_chain2 b suf
  end.

(** The target points one supplied object stands for, before the
    transform: a point itself, the center of a wire's face, the centers of
    a face's inner wires or, when it has none, of its outer wire. *)
Definition shape_targets {Wire Face Foreign : Type}
    (makeFromWires_Center : Wire -> Vector)
    (innerWires : Face -> list Wire) (outerWire : Face -> Wire)
    (ob : obj Wire Face Foreign) : list Vector :=
  match ob with
  | OVector v => [v]
  | OWire w => [makeFromWires_Center w]
  | OFace f =>
      match innerWires f with
      | [] => [makeFromWires_Center (outerWire f)]
      | _ :: _ => map makeFromWires_Center (innerWires f)
      end
  | OForeign _ => []
  end.

(** The first supplied object that is neither a point, a wire nor a face. *)
Fixpoint first_foreign {Wire Face Foreign : Type} (objs : list (obj Wire Face Foreign))
    : option Foreign :=
  match objs with
  | [] => None
  | OForeign t :: _ => Some t
  | _ :: rest => first_foreign rest
  end.

(** The same [Drill] with another command list. *)
Definition with_commands {OInput : Type} (self : Drill OInput) (cs : list Command)
    : Drill OInput :=
  mkDrill (job self) (o self) (depth self) (previous_pos self) cs.

(** How [__post_init__] ends, read off its inputs: the checks in the order
    the method makes them. *)
Definition expected_outcome {Wire Face Foreign OInput : Type}
    (type_name : Foreign -> string)
    (_o_objects : OInput -> list (obj Wire Face Foreign))
    (self : Drill OInput) : outcome :=
  match o self with
  | None => Raised err_o_missing
  | Some oi =>
      match depth self with
      | None => Raised err_depth_missing
      | Some _ =>
          match first_foreign (_o_objects oi) with
          | Some t => Raised (err_unsupported (type_name t))
          | None =>
              match _o_objects oi with
              | [] => Raised err_nothing_to_do
              | _ :: _ => Returned
              end
          end
      end
  end.

(** A store of three wires placed along a line (a location is an offset,
    its inverse the opposite offset): the source, with a line and a circle;
    a wire that starts with a circle; a wire whose only circle is its third
    edge.  Every other address holds an empty wire. *)
Definition sample_store : wire_store Z :=
  fun i =>
    match i with
    | 0%nat => mkWire ["LINE"; "CIRCLE"] 5%Z
    | 1%nat => mkWire ["CIRCLE"; "LINE"] 1%Z
    | 2%nat => mkWire ["LINE"; "LINE"; "CIRCLE"] 2%Z
    | _ => mkWire [] 0%Z
    end.


(** What an axis of an XYZ group is to print, written out: for a
    specified axis one token, the letter followed by the text of the
    rounded and optimized value; nothing for an unspecified axis. *)
Definition xyz_words (float_repr : Q -> string) (letter : GCodeLetter)
    (a : option Q) (precision : Z) : list string :=
  match a with
  | Some v => [letter_str letter ++ str_num float_repr (optimize_float (round v precision))]
  | None => []
  end.

(** A chain without ties: each point is strictly nearer to the point
    before it than every point after it. *)
Fixpoint strictly_nearest_chain (last : point) (l : list point) : Prop :=
  match l with
  | [] => True
  | b :: suf =>
      (forall c, In c suf -> dist2 last b < dist2 last c) /\
      strictly_nearest_chain b suf
  end.

(** * Properties *)

(** ** Resolution of an [AddressVector] *)

(** C7: absolute resolution ([relative=False]) returns, on each axis, the
    origin's value when the axis is unspecified and the vector's own value
    when it is specified; resolving the all-unspecified vector returns the
    origin itself. *)
Theorem to_vector_absolute :
  forall (origin : Vector) (v : Q) (a b : option Q),
    vx (to_vector (mkAddressVector None a b) origin false) = vx origin /\
    vx (to_vector (mkAddressVector (Some v) a b) origin false) = v /\
    vy (to_vector (mkAddressVector a None b) origin false) = vy origin /\
    vy (to_vector (mkAddressVector a (Some v) b) origin false) = v /\
    vz (to_vector (mkAddressVector a b None) origin false) = vz origin /\
    vz (to_vector (mkAddressVector a b (Some v)) origin false) = v /\
    to_vector AddressVector_default origin false = origin.
Proof.
  intros [ox oy oz] v a b; cbn.
  repeat split; reflexivity.
Qed.

(** C9: relative resolution ([relative=True]) returns, on each axis, the
    stored value minus the origin's value when the axis is specified and 0
    when it is not: a specified axis is read as a displacement from the
    origin (5 against an origin at 2 resolves to 3, not to 5). *)
Theorem to_vector_relative :
  forall (origin : Vector) (v : Q) (a b : option Q),
    vx (to_vector (mkAddressVector None a b) origin true) = 0 /\
    vx (to_vector (mkAddressVector (Some v) a b) origin true) = v - vx origin /\
    vy (to_vector (mkAddressVector a None b) origin true) = 0 /\
    vy (to_vector (mkAddressVector a (Some v) b) origin true) = v - vy origin /\
    vz (to_vector (mkAddressVector a b None) origin true) = 0 /\
    vz (to_vector (mkAddressVector a b (Some v)) origin true) = v - vz origin /\
    to_vector (mkAddressVector (Some 5) None None) (mkVector 2 7 9) true = mkVector 3 0 0.
Proof.
  intros origin v a b; cbn.
  repeat split; reflexivity.
Qed.

(** ** Words and axis groups *)

Lemma letter_str_nonempty (l : GCodeLetter) (s : string) :
  nonempty (letter_str l ++ s) = true.
Proof. destruct l; reflexivity. Qed.

Lemma coord_str_nonempty (float_repr : Q -> string) (l : GCodeLetter) (v : Q) (p : Z) :
  nonempty (coord_str float_repr l v p) = true.
Proof. unfold coord_str; cbn. apply letter_str_nonempty. Qed.

(** What [GCodeAxisGroup.__str__] prints: the non-empty slot texts, in slot
    order, joined by one space. *)
Lemma group_str_filter (float_repr : Q -> string) (g : GCodeAxisGroup) :
  group_str float_repr g =
  join " " (filter nonempty [slot_str float_repr (axis_1 g);
                             slot_str float_repr (axis_2 g);
                             slot_str float_repr (axis_3 g)]).
Proof.
  unfold group_str; cbn.
  destruct (nonempty (slot_str float_repr (axis_1 g)));
    destruct (nonempty (slot_str float_repr (axis_2 g)));
    destruct (nonempty (slot_str float_repr (axis_3 g))); reflexivity.
Qed.

(** The filter keeps exactly the tokens of the specified axes. *)
Lemma filter_xyz_slot (float_repr : Q -> string) (l : GCodeLetter) (a : option Q) (p : Z)
    (rest : list string) :
  filter nonempty (word_str float_repr (WordPrecision l a p) :: rest) =
  (xyz_tokens float_repr l a p ++ filter nonempty rest)%list.
Proof.
  destruct a as [v|]; [|reflexivity].
  change (word_str float_repr (WordPrecision l (Some v) p)) with (coord_str float_repr l v p).
  cbn [filter xyz_tokens app]. now rewrite coord_str_nonempty.
Qed.

(** The decimal numeral of an integer is never empty. *)
Lemma str_int_nonempty (i : Z) : nonempty (str_int i) = true.
Proof.
  unfold str_int. destruct (Z.to_int i) as [d|d]; destruct d; reflexivity.
Qed.

(** C8: a word without a value, plain or fixed-precision, prints as the
    empty string, and a word with a value prints as its letter followed by
    the text of its number (rounded and optimized for a fixed-precision
    word); an axis group prints only its non-empty slot texts, so an XYZ
    group prints exactly one letter-and-number token per specified axis and
    nothing, not even the letter, for an unspecified one; and as long as
    the text of a float is never empty, neither is the text of any number,
    so no letter is printed without a value after it. *)
Theorem unspecified_word_prints_nothing :
  forall (float_repr : Q -> string),
    (forall (letter : GCodeLetter) (precision : Z),
        word_str float_repr (Word letter None) = "" /\
        word_str float_repr (WordPrecision letter None precision) = "") /\
    (forall (letter : GCodeLetter) (a : pynum),
        word_str float_repr (Word letter (Some a))
        = letter_str letter ++ str_num float_repr a) /\
    (forall (letter : GCodeLetter) (v : Q) (precision : Z),
        word_str float_repr (WordPrecision letter (Some v) precision)
        = letter_str letter ++ str_num float_repr (optimize_float (round v precision))) /\
    (forall g : GCodeAxisGroup,
        group_str float_repr g =
        join " " (filter nonempty [slot_str float_repr (axis_1 g);
                                   slot_str float_repr (axis_2 g);
                                   slot_str float_repr (axis_3 g)])) /\
    (forall (end_ : AddressVector) (precision : Z),
        group_str float_repr (XYZ end_ precision) =
        join " " (xyz_words float_repr LXAxis (x end_) precision ++
                  xyz_words float_repr LYAxis (y end_) precision ++
                  xyz_words float_repr LZAxis (z end_) precision)) /\
    (forall precision : Z,
        group_str float_repr (XYZ AddressVector_default precision) = "") /\
    ((forall q : Q, nonempty (float_repr q) = true) ->
     forall n : pynum, nonempty (str_num float_repr n) = true).
Proof.
  intros float_repr. split; [|split; [|split; [|split; [|split; [|split]]]]].
  - intros letter precision. split; reflexivity.
  - intros letter a. reflexivity.
  - intros letter v precision. reflexivity.
  - apply group_str_filter.
  - intros e p. rewrite group_str_filter.
    unfold XYZ, XAxis, YAxis, ZAxis; cbn [axis_1 axis_2 axis_3 slot_str].
    rewrite !filter_xyz_slot. cbn [filter]. rewrite app_nil_r.
    destruct (x e), (y e), (z e); reflexivity.
  - intros p. reflexivity.
  - intros Hrepr [i|q]; cbn [str_num]; [apply str_int_nonempty | apply Hrepr].
Qed.

(** The slot [IJK.__init__] fills for one axis, once filtered: the token of
    a specified non-zero axis, or nothing. *)
Lemma filter_ijk_slot (float_repr : Q -> string) (l : GCodeLetter) (a : option Q) (p : Z)
    (rest : list string) :
  filter nonempty
    (slot_str float_repr
       (if neq_zero a then SlotWord (WordPrecision l a p) else SlotStr "") :: rest) =
  (ijk_tokens float_repr l a p ++ filter nonempty rest)%list.
Proof.
  destruct a as [v|]; cbn [neq_zero ijk_tokens].
  - destruct (Qeq_bool v 0); cbn [negb slot_str]; [reflexivity|].
    change (word_str float_repr (WordPrecision l (Some v) p)) with (coord_str float_repr l v p).
    cbn [filter app]. now rewrite coord_str_nonempty.
  - reflexivity.
Qed.

(** The text of the IJK group: the tokens of its specified non-zero axes,
    in I, J, K order, joined by one space. *)
Lemma IJK_str_tokens (float_repr : Q -> string) (center : AddressVector) (p : Z) :
  group_str float_repr (IJK center p) =
  join " " (ijk_tokens float_repr LArcXAxis (x center) p ++
            ijk_tokens float_repr LArcYAxis (y center) p ++
            ijk_tokens float_repr LArcZAxis (z center) p).
Proof.
  rewrite group_str_filter.
  unfold IJK, ArcXAxis, ArcYAxis, ArcZAxis; cbn [axis_1 axis_2 axis_3].
  rewrite !filter_ijk_slot. cbn [filter]. now rewrite app_nil_r.
Qed.

(** A value equal to zero is optimized to the integer 0. *)
Lemma optimize_float_zero (v : Q) : v == 0 -> optimize_float v = PyInt 0.
Proof.
  intros Hv. unfold optimize_float.
  now rewrite (Qred_complete v 0 Hv).
Qed.

(** C5, as amended: the IJK group prints nothing for a component that is
    exactly zero (or unspecified) and prints the other components as
    non-empty words in I, J, K order, joined by one space.  The test for
    zero is made on the value before it is rounded, so a non-zero
    component that rounds to zero is still printed: 0.0004 at precision 3
    prints as [I0]. *)
Theorem IJK_omits_exact_zero :
  forall (float_repr : Q -> string),
    (forall (center : AddressVector) (precision : Z),
        group_str float_repr (IJK center precision) =
        join " " (ijk_tokens float_repr LArcXAxis (x center) precision ++
                  ijk_tokens float_repr LArcYAxis (y center) precision ++
                  ijk_tokens float_repr LArcZAxis (z center) precision)) /\
    (forall (letter : GCodeLetter) (v : Q) (precision : Z),
        v == 0 -> ijk_tokens float_repr letter (Some v) precision = []) /\
    (forall (letter : GCodeLetter) (v : Q) (precision : Z),
        ~ v == 0 ->
        ijk_tokens float_repr letter (Some v) precision
        = [coord_str float_repr letter v precision]) /\
    (forall (letter : GCodeLetter) (a : option Q) (precision : Z) (t : string),
        In t (ijk_tokens float_repr letter a precision) -> nonempty t = true) /\
    (forall (letter : GCodeLetter) (v : Q) (precision : Z),
        ~ v == 0 -> round v precision == 0 ->
        ijk_tokens float_repr letter (Some v) precision = [letter_str letter ++ "0"]) /\
    group_str float_repr (IJK (mkAddressVector (Some 0) (Some (3 # 2)) (Some 0)) 3)
    = "J" ++ float_repr (3 # 2) /\
    group_str float_repr (IJK (mkAddressVector (Some (4 # 10000)) (Some 0) None) 3)
    = "I0".
Proof.
  intros float_repr.
  assert (Hnz : forall (letter : GCodeLetter) (v : Q) (precision : Z),
             ~ v == 0 ->
             ijk_tokens float_repr letter (Some v) precision
             = [coord_str float_repr letter v precision]).
  { intros letter v p Hv. cbn.
    destruct (Qeq_bool v 0) eqn:E; [|reflexivity].
    apply Qeq_bool_iff in E. contradiction. }
  repeat split.
  - apply IJK_str_tokens.
  - intros letter v p Hv. cbn. apply Qeq_bool_iff in Hv. now rewrite Hv.
  - exact Hnz.
  - intros letter a p t Ht. destruct a as [v|]; cbn in Ht; [|contradiction].
    destruct (Qeq_bool v 0); cbn in Ht; [contradiction|].
    destruct Ht as [<-|[]]. apply coord_str_nonempty.
  - intros letter v p Hv Hr. rewrite (Hnz letter v p Hv).
    unfold coord_str; cbn [word_str]. now rewrite (optimize_float_zero _ Hr).
Qed.

(** C5, counterexample: the IJK group does produce an [I0] token, for a
    center whose X component is 0.0004 at precision 3: the text is that of
    the I word of the value 0. *)
Lemma IJK_prints_I0_after_rounding :
  exists (center : AddressVector) (precision : Z),
    x center = Some (4 # 10000) /\
    ~ (4 # 10000) == 0 /\
    forall float_repr : Q -> string,
      group_str float_repr (IJK center precision) = "I0" /\
      group_str float_repr (IJK center precision)
      = word_str float_repr (ArcXAxis (Some 0) precision).
Proof.
  exists (mkAddressVector (Some (4 # 10000)) (Some 0) None), 3%Z.
  split; [reflexivity|]. split; [discriminate|]. intros fr. split; reflexivity.
Qed.

(** ** Fixed machine-state sequences *)

(** C4, as amended: [ToolChange(2, speed=1000, coolant=FLOOD)] prints five
    lines: stop with coolant off, retract, optional stop, the tool line,
    and a restart that gives spindle, speed and the coolant again
    ([M3 S1000 M8]). *)
Theorem tool_change_spindle_coolant :
  forall (float_repr : Q -> string),
    ToolChange_to_gcode float_repr 2 (Some 1000%Z) (Some FLOOD)
    = lines ["M5 M9"; "G30"; "M1"; "T2 G43 H2 M6"; "M3 S1000 M8"] /\
    line_count (ToolChange_to_gcode float_repr 2 (Some 1000%Z) (Some FLOOD)) = 5%nat /\
    StartSequence_to_gcode float_repr (Some 1000%Z) (Some FLOOD) = "M3 S1000 M8".
Proof. intros float_repr. repeat split. Qed.

(** C4, counterexample: the text differs from the five strings
    [M5 M9], [G30], [M1], [T2 G43 H2 M6], [M3 S1000] joined by line feeds
    (its last line carries [M8]), and it does not have four lines. *)
Lemma tool_change_restart_carries_coolant :
  (forall float_repr : Q -> string,
      String.eqb (ToolChange_to_gcode float_repr 2 (Some 1000%Z) (Some FLOOD))
                 (lines ["M5 M9"; "G30"; "M1"; "T2 G43 H2 M6"; "M3 S1000"]) = false) /\
  (forall float_repr : Q -> string,
      Nat.eqb (line_count (ToolChange_to_gcode float_repr 2 (Some 1000%Z) (Some FLOOD))) 4
      = false).
Proof. split; reflexivity. Qed.

(** ** Rendering of an arc *)

(** C6: the clockwise arc from (-1,0,0) to the absolute end (1,0,-) around
    the absolute center (0,0,-) prints [G2X1I1J0] and resolves to (1,0,0);
    I and J are the offsets from the start to the center (1 and 0, the zero
    printed as [J0]), whatever the start and the center are. *)
Theorem cw_arc_gcode :
  forall (float_repr : Q -> string),
    to_gcode float_repr
      (CircularCW (mkAddressVector (Some 1) (Some 0) None)
                  (mkAddressVector (Some 0) (Some 0) None))
      (mkVector (-1) 0 0) 3
    = ("G2X1I1J0", mkVector 1 0 0) /\
    (forall (start : Vector) (cx cy : Q) (precision : Z),
        ijk_gcode float_repr (mkAddressVector (Some cx) (Some cy) None) start precision
        = coord_str float_repr LArcXAxis (cx - vx start) precision
          ++ coord_str float_repr LArcYAxis (cy - vy start) precision).
Proof.
  intros float_repr. split.
  - reflexivity.
  - intros start cx cy p. unfold ijk_gcode; cbn.
    reflexivity.
Qed.

(** ** The nearest-neighbour ordering *)

Lemma point_eqb_refl (p : point) : point_eqb p p = true.
Proof.
  unfold point_eqb. apply andb_true_intro.
  split; apply Qeq_bool_iff; reflexivity.
Qed.

(** Points that Python's [==] identifies are equally far from anything. *)
Lemma point_eqb_dist2 (p c r : point) :
  point_eqb c r = true -> dist2 p c == dist2 p r.
Proof.
  unfold point_eqb, dist2. intros H.
  apply andb_prop in H. destruct H as [H1 H2].
  apply Qeq_bool_iff in H1. apply Qeq_bool_iff in H2.
  now rewrite H1, H2.
Qed.

(** Comparing squares compares the distances. *)
Lemma dist2_le_euclid (a b c : point) :
  dist2 a b <= dist2 a c -> (euclid a b <= euclid a c)%R.
Proof.
  intros H. unfold euclid. apply sqrt_le_1_alt. now apply Qle_Rle.
Qed.

(** The scan returns the first option among the nearest: everything before
    it is strictly farther, everything after it is at least as far. *)
Lemma pick_nearest_from_split (p : point) :
  forall (rest l1 l2 : list point) (best : point),
    (forall c, In c l1 -> dist2 p best < dist2 p c) ->
    (forall c, In c l2 -> dist2 p best <= dist2 p c) ->
    exists m1 m2,
      (l1 ++ best :: l2 ++ rest = m1 ++ pick_nearest_from p best rest :: m2)%list /\
      (forall c, In c m1 -> dist2 p (pick_nearest_from p best rest) < dist2 p c) /\
      (forall c, In c m2 -> dist2 p (pick_nearest_from p best rest) <= dist2 p c).
Proof.
  induction rest as [|c rest IH]; intros l1 l2 best H1 H2; cbn [pick_nearest_from].
  - exists l1, l2. rewrite app_nil_r. auto.
  - destruct (Qle_bool (dist2 p best) (dist2 p c)) eqn:E.
    + apply Qle_bool_iff in E.
      destruct (IH l1 (l2 ++ [c])%list best H1) as (m1 & m2 & Heq & Hm1 & Hm2).
      { intros d Hd. apply in_app_or in Hd. destruct Hd as [Hd|[<-|[]]]; auto. }
      exists m1, m2. rewrite <- Heq, <- app_assoc. auto.
    + assert (Hlt : dist2 p c < dist2 p best).
      { apply Qnot_le_lt. intros Hle. apply Qle_bool_iff in Hle. congruence. }
      destruct (IH (l1 ++ best :: l2)%list [] c) as (m1 & m2 & Heq & Hm1 & Hm2).
      { intros d Hd. apply in_app_or in Hd. destruct Hd as [Hd|[<-|Hd]].
        - eapply Qlt_trans; [exact Hlt | auto].
        - exact Hlt.
        - eapply Qlt_le_trans; [exact Hlt | auto]. }
      { intros d []. }
      exists m1, m2. rewrite <- Heq, <- app_assoc. auto.
Qed.

(** [index] finds an element at once when nothing before it is equal to
    it. *)
Lemma index_first (r : point) (m1 m2 : list point) :
  (forall c, In c m1 -> point_eqb c r = false) ->
  index r (m1 ++ r :: m2) = Some (List.length m1).
Proof.
  induction m1 as [|c m1 IH]; intros H; cbn [app index List.length].
  - now rewrite point_eqb_refl.
  - rewrite (H c (or_introl eq_refl)), IH; [reflexivity|].
    intros d Hd. apply H. now right.
Qed.

Lemma pop_middle (r : point) (m1 m2 : list point) :
  pop (List.length m1) (m1 ++ r :: m2) = Some (m1 ++ m2)%list.
Proof.
  induction m1 as [|c m1 IH]; cbn [app pop List.length]; [reflexivity|].
  now rewrite IH.
Qed.

(** One round of the loop after the first: the nearest option is found,
    located and popped, and what is left is the list without it. *)
Lemma pick_index_pop (a first : point) (rest : list point) :
  exists m1 m2,
    (first :: rest = m1 ++ pick_nearest_from a first rest :: m2)%list /\
    index (pick_nearest_from a first rest) (first :: rest) = Some (List.length m1) /\
    pop (List.length m1) (first :: rest) = Some (m1 ++ m2)%list /\
    (forall c, In c (first :: rest) ->
               dist2 a (pick_nearest_from a first rest) <= dist2 a c).
Proof.
  destruct (pick_nearest_from_split a rest [] [] first) as (m1 & m2 & Heq & Hm1 & Hm2).
  { intros c []. }
  { intros c []. }
  cbn [app] in Heq. exists m1, m2. rewrite Heq. repeat split.
  - apply index_first. intros c Hc.
    destruct (point_eqb c (pick_nearest_from a first rest)) eqn:E; [|reflexivity].
    apply (point_eqb_dist2 a) in E. specialize (Hm1 c Hc).
    rewrite E in Hm1. now apply Qlt_irrefl in Hm1.
  - apply pop_middle.
  - intros c Hc. apply in_app_or in Hc. destruct Hc as [Hc|[<-|Hc]].
    + apply Qlt_le_weak. auto.
    + apply Qle_refl.
    + auto.
Qed.

(** The loop, once a point has been visited: with fuel for every remaining
    point it finishes, appending a permutation of the remaining points in
    which each point is nearest to the one before it. *)
Lemma order_loop_some (fuel : nat) :
  forall (a : point) (drill_points ordered : list point),
    (List.length drill_points <= fuel)%nat ->
    exists tail,
      order_loop fuel (Some a) drill_points ordered = Some (ordered ++ tail)%list /\
      Permutation tail drill_points /\
      nearest_chain a tail.
Proof.
  induction fuel as [|fuel IH]; intros a dp ordered Hlen.
  - destruct dp as [|first rest]; [|cbn in Hlen; lia].
    exists []. cbn. rewrite app_nil_r. auto.
  - destruct dp as [|first rest].
    + exists []. cbn. rewrite app_nil_r. auto.
    + destruct (pick_index_pop a first rest) as (m1 & m2 & Heq & Hidx & Hpop & Hmin).
      cbn [order_loop _pick_nearest]. rewrite Hidx, Hpop.
      set (r := pick_nearest_from a first rest) in *.
      destruct (IH r (m1 ++ m2)%list (ordered ++ [r])%list) as (tail & Hrun & Hperm & Hchain).
      { apply (f_equal (@List.length point)) in Heq.
        rewrite length_app in Heq |- *. cbn [List.length] in Heq, Hlen. lia. }
      exists (r :: tail). rewrite Hrun, <- app_assoc. cbn [app]. repeat split.
      * rewrite Heq. now apply Permutation_cons_app.
      * intros c [<-|Hc]; [apply Rle_refl|].
        apply dist2_le_euclid, Hmin. rewrite Heq.
        apply (Permutation_in c) in Hperm; [|exact Hc].
        apply in_or_app. apply in_app_or in Hperm. destruct Hperm; [left|right; right]; auto.
      * exact Hchain.
Qed.

(** The whole ordering: the first input point first, then the chain. *)
Lemma order_drill_points_some (p : point) (l : list point) :
  exists tail,
    order_drill_points (p :: l) = Some (p :: tail) /\
    Permutation tail l /\
    nearest_chain p tail.
Proof.
  unfold order_drill_points. cbn [List.length order_loop index].
  rewrite point_eqb_refl. cbn [pop].
  destruct (order_loop_some (List.length l) p l ([] ++ [p])%list (le_n _))
    as (tail & Hrun & Hperm & Hchain).
  exists tail. rewrite Hrun. auto.
Qed.

(** C1: on a non-empty list of target points the ordering loop finishes;
    it visits the first input point first and then, each time, a point at
    minimum Euclidean distance from the point just visited among the
    points not yet visited; the visiting order is a permutation of the
    input, so every target is visited exactly once; and the collinear
    points A(0,0), B(5,0), C(10,0) are visited in the order A, B, C, also
    when they are given as A, C, B. *)
Theorem drill_order_nearest_neighbour :
  (forall (p : point) (l : list point),
      exists tail,
        order_drill_points (p :: l) = Some (p :: tail) /\
        nearest_chain p tail /\
        Permutation (p :: tail) (p :: l) /\
        List.length (p :: tail) = List.length (p :: l)) /\
  order_drill_points [(0, 0); (5 # 1, 0); (10 # 1, 0)]
  = Some [(0, 0); (5 # 1, 0); (10 # 1, 0)] /\
  order_drill_points [(0, 0); (10 # 1, 0); (5 # 1, 0)]
  = Some [(0, 0); (5 # 1, 0); (10 # 1, 0)].
Proof.
  split; [|split; reflexivity].
  intros p l. destruct (order_drill_points_some p l) as (tail & Hrun & Hperm & Hchain).
  exists tail. repeat split; auto.
  cbn [List.length]. f_equal. now apply Permutation_length.
Qed.

(** ** The command list of a Drill *)

Lemma Qabs_opp_eq (d : Q) : Qabs (- d) = Qabs d.
Proof.
  destruct d as [n m]. unfold Qabs, Qopp; cbn. f_equal. apply Z.abs_opp.
Qed.

(** One round of the [for] loop appends the target's four commands and
    leaves [previous_pos] at the end of the plunge. *)
Lemma drill_ops_spec (job : Job) (zcut : Q) (pt : point) (prev : AddressVector) :
  drill_ops job zcut pt prev =
  (target_commands (op_safe_height job) (job_feed job) zcut pt prev,
   mkAddressVector None None (Some zcut)).
Proof. reflexivity. Qed.

(** The [for] loop and [flatten_list]: the targets' commands are appended
    in visiting order. *)
Lemma cut_loop_spec (job : Job) (zcut : Q) :
  forall (points : list point) (prev : AddressVector) (acc : list (list Command)),
    flatten_list (fst (cut_loop job zcut points prev acc)) =
    (flatten_list acc
     ++ drill_program (op_safe_height job) (job_feed job) zcut points prev)%list /\
    snd (cut_loop job zcut points prev acc) =
    match points with
    | [] => prev
    | _ :: _ => mkAddressVector None None (Some zcut)
    end.
Proof.
  induction points as [|pt rest IH]; intros prev acc.
  - cbn. now rewrite app_nil_r.
  - cbn [cut_loop]. rewrite drill_ops_spec.
    destruct (IH (mkAddressVector None None (Some zcut))
                 (acc ++ [target_commands (op_safe_height job) (job_feed job) zcut pt prev])%list)
      as [Hf Hs].
    split.
    + rewrite Hf. unfold flatten_list. rewrite concat_app. cbn [List.concat drill_program].
      now rewrite app_nil_r, <- app_assoc.
    + rewrite Hs. now destruct rest.
Qed.

Lemma drill_program_length (safe feed_rate zcut : Q) :
  forall (targets : list point) (prev : AddressVector),
    List.length (drill_program safe feed_rate zcut targets prev)
    = (4 * List.length targets)%nat.
Proof.
  induction targets as [|pt rest IH]; intros prev; [reflexivity|].
  cbn [drill_program target_commands app List.length]. rewrite IH. lia.
Qed.

Lemma drill_program_chained (safe feed_rate zcut : Q) :
  forall (targets : list point) (prev : AddressVector),
    chained (drill_program safe feed_rate zcut targets prev).
Proof.
  induction targets as [|pt rest IH]; intros prev; [exact I|].
  specialize (IH (mkAddressVector None None (Some zcut))).
  cbn [drill_program target_commands app chained].
  repeat (split; [reflexivity|]).
  destruct rest as [|pt' rest]; [exact I|].
  split; [reflexivity | exact IH].
Qed.

Lemma drill_program_first (safe feed_rate zcut : Q) (pt : point) (rest : list point)
    (prev : AddressVector) :
  exists first others,
    drill_program safe feed_rate zcut (pt :: rest) prev = first :: others /\
    start first = prev.
Proof. cbn [drill_program target_commands app]. eauto. Qed.

Lemma drill_program_last (safe feed_rate zcut : Q) :
  forall (targets : list point) (pt : point) (prev : AddressVector) (dflt : Command),
    end_ (List.last (drill_program safe feed_rate zcut (pt :: targets) prev) dflt)
    = mkAddressVector None None (Some zcut).
Proof.
  induction targets as [|pt' rest IH]; intros pt prev dflt; [reflexivity|].
  specialize (IH pt' (mkAddressVector None None (Some zcut)) dflt).
  cbn [drill_program target_commands app List.last] in IH |- *. exact IH.
Qed.

Section DrillProperties.

Variables Wire Face Foreign OInput : Type.
Variable makeFromWires_Center : Wire -> Vector.
Variable innerWires : Face -> list Wire.
Variable outerWire : Face -> Wire.
Variable type_name : Foreign -> string.
Variable _o_objects : OInput -> list (obj Wire Face Foreign).

Local Abbreviation run :=
  (post_init makeFromWires_Center innerWires outerWire type_name _o_objects).
Local Abbreviation extracted :=
  (extract makeFromWires_Center innerWires outerWire type_name).
Local Abbreviation xy := (fun p : Vector => (vx p, vy p)).

(** The object as [__post_init__] leaves it when it raises: only
    [previous_pos] may have been given its default. *)
Local Abbreviation entered self :=
  (mkDrill (job self) (o self) (depth self) (Some (initial_pos self)) (commands self)).

(** With its three inputs in order, [__post_init__] returns, and the
    object it leaves is known in full. *)
Lemma post_init_returns (self : Drill OInput) (oi : OInput) (d : Q)
    (v : Vector) (vs : list Vector) :
  o self = Some oi ->
  depth self = Some d ->
  extracted (toWorldCoords (job self)) (_o_objects oi) [] = inl (v :: vs) ->
  exists tail,
    order_drill_points (map xy (v :: vs)) = Some (xy v :: tail) /\
    Permutation tail (map xy vs) /\
    run self =
    (mkDrill (job self) (o self) (depth self)
       (Some (mkAddressVector None None (Some (- Qabs d))))
       (drill_program (op_safe_height (job self)) (job_feed (job self)) (- Qabs d)
          (xy v :: tail) (initial_pos self)),
     Returned).
Proof.
  intros Ho Hd Hx.
  destruct (order_drill_points_some (xy v) (map xy vs)) as (tail & Hrun & Hperm & _).
  exists tail. split; [exact Hrun|]. split; [exact Hperm|].
  unfold post_init. cbn [job o depth previous_pos commands].
  rewrite Ho, Hd, Hx. cbv beta iota zeta.
  cbn [map]. unfold point in *. rewrite Hrun.
  fold (initial_pos self).
  destruct (cut_loop_spec (job self) (- Qabs d) (xy v :: tail) (initial_pos self) [])
    as [Hf Hs].
  destruct (cut_loop (job self) (- Qabs d) (xy v :: tail) (initial_pos self) [])
    as [seqs pos].
  cbn [fst snd] in Hf, Hs. rewrite Hf, Hs. reflexivity.
Qed.

(** Conversely, a run that returns had its three inputs in order. *)
Lemma post_init_returned_inv (self self' : Drill OInput) :
  run self = (self', Returned) ->
  exists oi d v vs,
    o self = Some oi /\
    depth self = Some d /\
    extracted (toWorldCoords (job self)) (_o_objects oi) [] = inl (v :: vs).
Proof.
  unfold post_init. cbn [job o depth previous_pos commands].
  destruct (o self) as [oi|]; [|discriminate].
  destruct (depth self) as [d|]; [|discriminate].
  destruct (extracted (toWorldCoords (job self)) (_o_objects oi) [])
    as [[|v vs]|e] eqn:Hx; try discriminate.
  intros _. exists oi, d, v, vs. repeat split. exact Hx.
Qed.

(** [__post_init__] always ends by returning or by raising an operation
    error: the [while] loop never runs out of fuel and no built-in
    raises. *)
Lemma post_init_never_stuck (self : Drill OInput) : snd (run self) <> Stuck.
Proof.
  destruct (o self) as [oi|] eqn:Ho.
  2:{ unfold post_init. cbn [job o depth previous_pos commands]. rewrite Ho. discriminate. }
  destruct (depth self) as [d|] eqn:Hd.
  2:{ unfold post_init. cbn [job o depth previous_pos commands]. rewrite Ho, Hd.
      discriminate. }
  destruct (extracted (toWorldCoords (job self)) (_o_objects oi) []) as [[|v vs]|e] eqn:Hx.
  - unfold post_init. cbn [job o depth previous_pos commands]. rewrite Ho, Hd, Hx.
    discriminate.
  - destruct (post_init_returns self oi d v vs Ho Hd Hx) as (tail & _ & _ & Hrun).
    rewrite Hrun. discriminate.
  - unfold post_init. cbn [job o depth previous_pos commands]. rewrite Ho, Hd, Hx.
    discriminate.
Qed.

(** Name the object a returning run leaves, without unfolding it. *)
Ltac returned_as Hrun Hret self' :=
  let E := fresh "E" in
  pose proof (f_equal fst (eq_trans (eq_sym Hrun) Hret)) as E;
  cbn [fst] in E; subst self'.

(** C2: a Drill whose construction succeeds had a depth [d] and a
    non-empty list of extracted targets; its command list is the
    concatenation, in visiting order, of four commands per target (rapid
    to the safe height on Z only, rapid to the target on X and Y only,
    rapid to Z = 0 only, plunge to Z = -|d| with the job's feed rate), so
    it has 4 * N commands for N targets, and the same Drill given depth
    [-d] is constructed with the same command list. *)
Theorem drill_commands_four_per_target (self self' : Drill OInput) :
  run self = (self', Returned) ->
  exists (d : Q) (oi : OInput) (targets : list Vector) (ordered : list point),
    depth self = Some d /\
    o self = Some oi /\
    extracted (toWorldCoords (job self)) (_o_objects oi) [] = inl targets /\
    order_drill_points (map xy targets) = Some ordered /\
    List.length ordered = List.length targets /\
    commands self' =
      drill_program (op_safe_height (job self)) (job_feed (job self)) (- Qabs d)
        ordered (initial_pos self) /\
    List.length (commands self') = (4 * List.length ordered)%nat /\
    exists self'',
      run (with_depth self (Some (- d))) = (self'', Returned) /\
      commands self'' = commands self'.
Proof.
  intros Hret.
  destruct (post_init_returned_inv self self' Hret) as (oi & d & v & vs & Ho & Hd & Hx).
  destruct (post_init_returns self oi d v vs Ho Hd Hx) as (tail & Hord & Hperm & Hrun).
  returned_as Hrun Hret self'.
  exists d, oi, (v :: vs), (xy v :: tail). cbn [commands].
  repeat (split; [assumption || reflexivity|]).
  split.
  { cbn [List.length]. f_equal. apply Permutation_length in Hperm.
    etransitivity; [exact Hperm | apply length_map]. }
  split; [reflexivity|].
  split; [apply drill_program_length|].
  destruct (post_init_returns (with_depth self (Some (- d))) oi (- d) v vs Ho eq_refl Hx)
    as (tail' & Hord' & _ & Hrun').
  rewrite Hord in Hord'. injection Hord' as <-.
  eexists. split; [exact Hrun'|].
  cbn [commands with_depth job]. now rewrite Qabs_opp_eq.
Qed.

(** The invariant, by position: a command at position [i + 1] starts where
    the command at position [i] ends. *)
Lemma chained_nth_error (l : list Command) :
  chained l ->
  forall (i : nat) (a b : Command),
    nth_error l i = Some a -> nth_error l (S i) = Some b -> start b = end_ a.
Proof.
  induction l as [|c tl IH]; intros Hc i a b Ha Hb.
  - destruct i; discriminate.
  - destruct tl as [|c' tl'].
    + destruct i; discriminate.
    + destruct Hc as [Hcc Htl]. destruct i as [|i].
      * cbn in Ha, Hb. congruence.
      * cbn [nth_error] in Ha. apply (IH Htl i a b Ha). exact Hb.
Qed.

(** C10: after a successful construction the command list is not empty;
    its first command starts at the supplied [previous_pos] (at the
    all-unspecified vector when none was supplied), every later command
    starts where the command before it ends, and the [previous_pos] field
    is the end of the last command. *)
Theorem drill_chain_threading (self self' : Drill OInput) :
  run self = (self', Returned) ->
  exists (first : Command) (rest : list Command),
    commands self' = first :: rest /\
    start first = initial_pos self /\
    (previous_pos self = None -> start first = AddressVector_default) /\
    (forall given, previous_pos self = Some given -> start first = given) /\
    chained (commands self') /\
    (forall (i : nat) (a b : Command),
        nth_error (commands self') i = Some a ->
        nth_error (commands self') (S i) = Some b ->
        start b = end_ a) /\
    previous_pos self' = Some (end_ (List.last (commands self') first)).
Proof.
  intros Hret.
  destruct (post_init_returned_inv self self' Hret) as (oi & d & v & vs & Ho & Hd & Hx).
  destruct (post_init_returns self oi d v vs Ho Hd Hx) as (tail & _ & _ & Hrun).
  returned_as Hrun Hret self'. cbn [commands previous_pos].
  destruct (drill_program_first (op_safe_height (job self)) (job_feed (job self))
              (- Qabs d) (xy v) tail (initial_pos self)) as (first & rest & Heq & Hstart).
  exists first, rest. split; [exact Heq|]. split; [exact Hstart|].
  split; [|split; [|split; [|split]]].
  - intros Hnone. rewrite Hstart. unfold initial_pos. now rewrite Hnone.
  - intros given Hgiven. rewrite Hstart. unfold initial_pos. now rewrite Hgiven.
  - apply drill_program_chained.
  - apply chained_nth_error, drill_program_chained.
  - now rewrite drill_program_last.
Qed.

(** The extraction stops at the first object that is neither a point, a
    wire nor a face, whatever was extracted before it. *)
Lemma extract_foreign (transform_f : Vector -> Vector) :
  forall (objs : list (obj Wire Face Foreign)) (t : Foreign) (acc : list Vector),
    In (OForeign t) objs ->
    exists t',
      In (OForeign t') objs /\
      extracted transform_f objs acc = inr (err_unsupported (type_name t')).
Proof.
  induction objs as [|ob rest IH]; intros t acc Hin; [contradiction|].
  destruct ob as [v|w|f|t0].
  - destruct Hin as [Hin|Hin]; [discriminate|].
    destruct (IH t (acc ++ [transform_f v])%list Hin) as (t' & Hin' & Hx).
    exists t'. split; [now right | exact Hx].
  - destruct Hin as [Hin|Hin]; [discriminate|].
    destruct (IH t (acc ++ [transform_f (makeFromWires_Center w)])%list Hin)
      as (t' & Hin' & Hx).
    exists t'. split; [now right | exact Hx].
  - destruct Hin as [Hin|Hin]; [discriminate|].
    cbn [extract]. destruct (innerWires f) as [|w ws].
    + destruct (IH t (acc ++ [transform_f (makeFromWires_Center (outerWire f))])%list Hin)
        as (t' & Hin' & Hx).
      exists t'. split; [now right | exact Hx].
    + destruct (IH t (acc ++ map (fun wire => transform_f (makeFromWires_Center wire))
                              (w :: ws))%list Hin) as (t' & Hin' & Hx).
      exists t'. split; [now right | exact Hx].
  - exists t0. split; [now left | reflexivity].
Qed.

(** C3: construction fails with an operation error when [o] is missing,
    when [depth] is missing, when a supplied object is neither a point, a
    wire nor a face, and when the extraction yields no target; the four
    errors are pairwise different; and whenever construction fails the
    object is left as it was entered, with the command list it had: no
    command has been produced. *)
Theorem drill_configuration_errors :
  (forall self : Drill OInput,
      o self = None -> run self = (entered self, Raised err_o_missing)) /\
  (forall self : Drill OInput,
      depth self = None -> exists e, run self = (entered self, Raised e)) /\
  (forall (self : Drill OInput) (oi : OInput),
      o self = Some oi -> depth self = None ->
      run self = (entered self, Raised err_depth_missing)) /\
  (forall (self : Drill OInput) (oi : OInput) (d : Q) (t : Foreign),
      o self = Some oi -> depth self = Some d ->
      In (OForeign t) (_o_objects oi) ->
      exists t',
        In (OForeign t') (_o_objects oi) /\
        run self = (entered self, Raised (err_unsupported (type_name t')))) /\
  (forall (self : Drill OInput) (oi : OInput) (d : Q),
      o self = Some oi -> depth self = Some d ->
      extracted (toWorldCoords (job self)) (_o_objects oi) [] = inl [] ->
      run self = (entered self, Raised err_nothing_to_do)) /\
  (forall (self self' : Drill OInput) (e : OperationError),
      run self = (self', Raised e) ->
      self' = entered self /\ commands self' = commands self) /\
  (err_o_missing <> err_depth_missing /\
   err_o_missing <> err_nothing_to_do /\
   err_depth_missing <> err_nothing_to_do /\
   forall n : string,
     err_unsupported n <> err_o_missing /\
     err_unsupported n <> err_depth_missing /\
     err_unsupported n <> err_nothing_to_do).
Proof.
  split; [|split; [|split; [|split; [|split; [|split]]]]].
  - intros self Ho. unfold post_init. cbn [job o depth previous_pos commands].
    now rewrite Ho.
  - intros self Hd. unfold post_init. cbn [job o depth previous_pos commands].
    rewrite Hd. destruct (o self); eauto.
  - intros self oi Ho Hd. unfold post_init. cbn [job o depth previous_pos commands].
    now rewrite Ho, Hd.
  - intros self oi d t Ho Hd Hin.
    destruct (extract_foreign (toWorldCoords (job self)) (_o_objects oi) t [] Hin)
      as (t' & Hin' & Hx).
    exists t'. split; [exact Hin'|].
    unfold post_init. cbn [job o depth previous_pos commands].
    now rewrite Ho, Hd, Hx.
  - intros self oi d Ho Hd Hx. unfold post_init. cbn [job o depth previous_pos commands].
    now rewrite Ho, Hd, Hx.
  - intros self self' e. unfold post_init. cbn [job o depth previous_pos commands].
    destruct (o self) as [oi|].
    2:{ intros H. injection H as <- _. split; reflexivity. }
    destruct (depth self) as [d|].
    2:{ intros H. injection H as <- _. split; reflexivity. }
    destruct (extracted (toWorldCoords (job self)) (_o_objects oi) []) as [[|v vs]|e'].
    + intros H. injection H as <- _. split; reflexivity.
    + destruct (order_drill_points (map xy (v :: vs))).
      * destruct (cut_loop (job self) (- Qabs d) l _ []). discriminate.
      * discriminate.
    + intros H. injection H as <- _. split; reflexivity.
  - repeat split; try discriminate; intros H; discriminate H.
Qed.

End DrillProperties.

(** ** The model against the repository's tests and on concrete inputs *)


(** C2 at [sample_drill]: its construction succeeds, so the theorem
    applies to it. *)
Lemma drill_commands_four_per_target_witness :
  sample_post_init sample_drill = (sample_built, Returned) /\
  exists (d : Q) (oi : list sample_obj) (targets : list Vector) (ordered : list point),
    depth sample_drill = Some d /\
    o sample_drill = Some oi /\
    extract (fun w : Vector => w) fst snd (fun t : string => t)
      (toWorldCoords (job sample_drill)) oi [] = inl targets /\
    order_drill_points (map (fun p : Vector => (vx p, vy p)) targets) = Some ordered /\
    List.length ordered = List.length targets /\
    commands sample_built =
      drill_program (op_safe_height (job sample_drill)) (job_feed (job sample_drill))
        (- Qabs d) ordered (initial_pos sample_drill) /\
    List.length (commands sample_built) = (4 * List.length ordered)%nat /\
    exists self'',
      sample_post_init (with_depth sample_drill (Some (- d))) = (self'', Returned) /\
      commands self'' = commands sample_built.
Proof.
  split; [reflexivity|].
  exact (drill_commands_four_per_target Vector (list Vector * Vector) string
           (list sample_obj) (fun w => w) fst snd (fun t => t) (fun l => l)
           sample_drill sample_built eq_refl).
Defined.

(** C10 at [sample_drill]. *)
Lemma drill_chain_threading_witness :
  sample_post_init sample_drill = (sample_built, Returned) /\
  exists (first : Command) (rest : list Command),
    commands sample_built = first :: rest /\
    start first = initial_pos sample_drill /\
    (previous_pos sample_drill = None -> start first = AddressVector_default) /\
    (forall given, previous_pos sample_drill = Some given -> start first = given) /\
    chained (commands sample_built) /\
    (forall (i : nat) (a b : Command),
        nth_error (commands sample_built) i = Some a ->
        nth_error (commands sample_built) (S i) = Some b ->
        start b = end_ a) /\
    previous_pos sample_built = Some (end_ (List.last (commands sample_built) first)).
Proof.
  split; [reflexivity|].
  exact (drill_chain_threading Vector (list Vector * Vector) string
           (list sample_obj) (fun w => w) fst snd (fun t => t) (fun l => l)
           sample_drill sample_built eq_refl).
Defined.

(** C3 on four Drills that cannot be constructed: no [o]; no depth; an
    object of another type among the targets; nothing to extract.  Each
    had the command list [[]] and keeps it. *)
Lemma drill_configuration_errors_witness :
  sample_post_init (bare_drill None (Some (3 # 1)))
  = (bare_drill_entered None (Some (3 # 1)), Raised err_o_missing) /\
  sample_post_init (bare_drill (Some one_point) None)
  = (bare_drill_entered (Some one_point) None, Raised err_depth_missing) /\
  (exists t',
      In (OForeign t') point_and_edge /\
      sample_post_init (bare_drill (Some point_and_edge) (Some (3 # 1)))
      = (bare_drill_entered (Some point_and_edge) (Some (3 # 1)),
         Raised (err_unsupported t'))) /\
  sample_post_init (bare_drill (Some []) (Some (3 # 1)))
  = (bare_drill_entered (Some []) (Some (3 # 1)), Raised err_nothing_to_do).
Proof.
  destruct (drill_configuration_errors Vector (list Vector * Vector) string
              (list sample_obj) (fun w => w) fst snd (fun t => t) (fun l => l))
    as (Ho & _ & Hd & Hforeign & Hnone & _).
  split; [exact (Ho (bare_drill None (Some (3 # 1))) eq_refl)|].
  split; [exact (Hd (bare_drill (Some one_point) None) _ eq_refl eq_refl)|].
  split.
  - exact (Hforeign (bare_drill (Some point_and_edge) (Some (3 # 1)))
             _ _ "Edge" eq_refl eq_refl (or_intror (or_introl eq_refl))).
  - exact (Hnone (bare_drill (Some []) (Some (3 # 1))) _ _ eq_refl eq_refl eq_refl).
Defined.

(** C5 with Python-like float text: a zero written [0/5] is left out, 1.5
    is printed. *)
Lemma IJK_omits_exact_zero_witness :
  (0 # 5) == 0 /\
  ijk_tokens float_repr_decimal LArcXAxis (Some (0 # 5)) 3 = [] /\
  ~ (3 # 2) == 0 /\
  ijk_tokens float_repr_decimal LArcYAxis (Some (3 # 2)) 3 = ["J1.5"] /\
  group_str float_repr_decimal (IJK (mkAddressVector (Some (0 # 5)) (Some (3 # 2)) None) 3)
  = "J1.5".
Proof.
  destruct (IJK_omits_exact_zero float_repr_decimal) as (Hstr & Hzero & Hnz & _).
  split; [reflexivity|].
  split; [exact (Hzero LArcXAxis (0 # 5) 3%Z eq_refl)|].
  assert (Hne : ~ (3 # 2) == 0) by discriminate.
  split; [exact Hne|].
  split.
  - exact (Hnz LArcYAxis (3 # 2) 3%Z Hne).
  - exact (Hstr (mkAddressVector (Some (0 # 5)) (Some (3 # 2)) None) 3%Z).
Defined.

(** [tests/test_gcode.py], case by case. *)
Example test_linear (float_repr : Q -> string) :
  to_gcode float_repr (Cut_abs (Some (10 # 1)) (Some (5 # 1)) (Some 1)) (mkVector 0 0 0) 3
  = ("G1X10Y5Z1", mkVector (10 # 1) (5 # 1) 1).
Proof. reflexivity. Qed.

Example test_ccw_arc (float_repr : Q -> string) :
  to_gcode float_repr
    (mkCommand KCircularCCW AddressVector_default
       (mkAddressVector (Some 1) (Some 0) None) None
       (Some (mkAddressVector (Some 0) (Some 0) None)))
    (mkVector (-1) 0 0) 3
  = ("G3X1I1J0", mkVector 1 0 0).
Proof. reflexivity. Qed.

Example test_stop_sequence :
  StopSequence_to_gcode None = "M5" /\ StopSequence_to_gcode (Some FLOOD) = "M5 M9".
Proof. split; reflexivity. Qed.

Example test_start_sequence (float_repr : Q -> string) :
  StartSequence_to_gcode float_repr None None = "M3" /\
  StartSequence_to_gcode float_repr (Some 1000%Z) None = "M3 S1000" /\
  StartSequence_to_gcode float_repr None (Some FLOOD) = "M3 M8" /\
  StartSequence_to_gcode float_repr None (Some MIST) = "M3 M7" /\
  StartSequence_to_gcode float_repr (Some 1000%Z) (Some FLOOD) = "M3 S1000 M8".
Proof. repeat split. Qed.

Example test_safety_block :
  SafetyBlock_to_gcode = lines ["G90 G54 G64 G50 G17 G94"; "G49 G40 G80"; "G21"; "G30"].
Proof. reflexivity. Qed.

Example test_tool_change (float_repr : Q -> string) :
  ToolChange_to_gcode float_repr 2 None None
  = lines ["M5"; "G30"; "M1"; "T2 G43 H2 M6"; "M3"] /\
  ToolChange_to_gcode float_repr 2 (Some 1000%Z) None
  = lines ["M5"; "G30"; "M1"; "T2 G43 H2 M6"; "M3 S1000"] /\
  ToolChange_to_gcode float_repr 2 None (Some FLOOD)
  = lines ["M5 M9"; "G30"; "M1"; "T2 G43 H2 M6"; "M3 M8"] /\
  ToolChange_to_gcode float_repr 2 None (Some MIST)
  = lines ["M5 M9"; "G30"; "M1"; "T2 G43 H2 M6"; "M3 M7"].
Proof. repeat split. Qed.

(** Words on concrete values: 1.000 prints as 1, 1.500 as 1.5, and a value
    is cut to the precision. *)
Example precision_words :
  word_str float_repr_decimal (XAxis (Some 1) 3) = "X1" /\
  word_str float_repr_decimal (YAxis (Some (3 # 2)) 3) = "Y1.5" /\
  word_str float_repr_decimal (ZAxis (Some (-12346 # 10000)) 3) = "Z-1.235" /\
  word_str float_repr_decimal (Feed (Some (100 # 1))) = "F100.0" /\
  word_str float_repr_decimal (Speed (Some 1000%Z)) = "S1000" /\
  group_str float_repr_decimal (XYZ (mkAddressVector (Some (3 # 2)) None (Some (-2 # 1))) 3)
  = "X1.5 Z-2".
Proof. repeat split. Qed.

(** The visiting order of [sample_drill]: from A to the hole at (-3,0),
    then B, the wire, C and the far hole. *)
Example sample_drill_order :
  order_drill_points
    [(0, 0); (10 # 1, 0); (5 # 1, 0); (5 # 1, 1 # 2); (-3 # 1, 0); (20 # 1, 20 # 1)]
  = Some [(0, 0); (-3 # 1, 0); (5 # 1, 0); (5 # 1, 1 # 2); (10 # 1, 0); (20 # 1, 20 # 1)]
  /\ List.length (commands sample_built) = 24%nat
  /\ previous_pos sample_built = Some (mkAddressVector None None (Some (-3 # 1))).
Proof. repeat split. Qed.

(** * Further properties of the source *)

(** ** [AddressVector]: how the two resolutions and [from_vector] combine *)

(** X2: [from_vector] leaves no axis unspecified, so the vector it builds
    resolves absolutely to the very vector it was built from, whatever the
    origin, and relatively against that vector to the null displacement. *)
Theorem from_vector_round_trip :
  forall (v origin : Vector),
    to_vector (from_vector v) origin false = v /\
    Veq (to_vector (from_vector v) v true) (mkVector 0 0 0).
Proof.
  intros [a b c] [ox oy oz]; unfold Veq; cbn.
  split; [reflexivity|]. repeat split; ring.
Qed.

(** X3: resolving a move against the position an earlier move resolved to
    is resolving the two moves laid over each other against the first
    origin; in particular resolving a move again against its own result
    changes nothing. *)
Theorem to_vector_overlay :
  forall (earlier later : AddressVector) (origin : Vector),
    to_vector later (to_vector earlier origin false) false
    = to_vector (overlay later earlier) origin false /\
    to_vector earlier (to_vector earlier origin false) false
    = to_vector earlier origin false.
Proof.
  intros [[ax|] [ay|] [az|]] [[bx|] [by_|] [bz|]] [ox oy oz]; cbn; split; reflexivity.
Qed.

(** ** [AddressVector.__eq__] *)

Lemma axis_eqb_sym (a b : option Q) : axis_eqb a b = axis_eqb b a.
Proof.
  destruct a as [u|], b as [v|]; cbn; try reflexivity.
  destruct (Qeq_bool u v) eqn:E, (Qeq_bool v u) eqn:F; try reflexivity.
  - apply Qeq_bool_iff in E. symmetry in E. apply Qeq_bool_iff in E. congruence.
  - apply Qeq_bool_iff in F. symmetry in F. apply Qeq_bool_iff in F. congruence.
Qed.

Lemma axis_eqb_trans (a b c : option Q) :
  axis_eqb a b = true -> axis_eqb b c = true -> axis_eqb a c = true.
Proof.
  destruct a as [u|], b as [v|], c as [w|]; cbn; try discriminate; auto.
  intros H1 H2. apply Qeq_bool_iff in H1. apply Qeq_bool_iff in H2.
  apply Qeq_bool_iff. now rewrite H1.
Qed.

(** Against an object that has the three attributes, [__eq__] answers
    with a boolean: the conjunction of the three comparisons. *)
Lemma AddressVector_eq_address (a b : AddressVector) :
  AddressVector_eq a (object_of_address b)
  = EqBool (axis_eqb (x a) (x b) && axis_eqb (y a) (y b) && axis_eqb (z a) (z b)).
Proof.
  unfold AddressVector_eq; cbn.
  destruct (axis_eqb (x a) (x b)); [|reflexivity].
  destruct (axis_eqb (y a) (y b)); reflexivity.
Qed.

(** Equal axis values resolve alike. *)
Lemma axis_eqb_resolve (a b : option Q) (o : Q) :
  axis_eqb a b = true ->
  match a with None => o | Some v => v end == match b with None => o | Some v => v end /\
  match a with None => 0 | Some v => v - o end == match b with None => 0 | Some v => v - o end.
Proof.
  destruct a as [u|], b as [v|]; cbn; try discriminate.
  - intros H. apply Qeq_bool_iff in H. now rewrite H.
  - intros _. split; reflexivity.
Qed.

(** X4: on [AddressVector]s, [==] is symmetric and transitive, tells an
    unspecified axis from a zero one, and vectors it identifies resolve to
    numerically equal positions in both modes. *)
Theorem AddressVector_eq_symmetric_transitive :
  (forall a b : AddressVector,
      AddressVector_eq a (object_of_address b)
      = AddressVector_eq b (object_of_address a)) /\
  (forall a b c : AddressVector,
      AddressVector_eq a (object_of_address b) = EqBool true ->
      AddressVector_eq b (object_of_address c) = EqBool true ->
      AddressVector_eq a (object_of_address c) = EqBool true) /\
  (forall (a b : AddressVector) (origin : Vector) (relative : bool),
      AddressVector_eq a (object_of_address b) = EqBool true ->
      Veq (to_vector a origin relative) (to_vector b origin relative)) /\
  (forall a b : option Q,
      AddressVector_eq (mkAddressVector None a b)
                       (object_of_address (mkAddressVector (Some 0) a b))
      = EqBool false).
Proof.
  split; [|split; [|split]].
  - intros a b. rewrite !AddressVector_eq_address.
    now rewrite (axis_eqb_sym (x a)), (axis_eqb_sym (y a)), (axis_eqb_sym (z a)).
  - intros a b c. rewrite !AddressVector_eq_address. intros H1 H2.
    injection H1 as H1. injection H2 as H2.
    apply andb_prop in H1. destruct H1 as [H1 Hz1]. apply andb_prop in H1.
    destruct H1 as [Hx1 Hy1].
    apply andb_prop in H2. destruct H2 as [H2 Hz2]. apply andb_prop in H2.
    destruct H2 as [Hx2 Hy2].
    now rewrite (axis_eqb_trans _ _ _ Hx1 Hx2), (axis_eqb_trans _ _ _ Hy1 Hy2),
      (axis_eqb_trans _ _ _ Hz1 Hz2).
  - intros a b origin relative. rewrite AddressVector_eq_address. intros H.
    injection H as H.
    apply andb_prop in H. destruct H as [H Hz]. apply andb_prop in H.
    destruct H as [Hx Hy].
    destruct (axis_eqb_resolve _ _ (vx origin) Hx) as [Hxa Hxr].
    destruct (axis_eqb_resolve _ _ (vy origin) Hy) as [Hya Hyr].
    destruct (axis_eqb_resolve _ _ (vz origin) Hz) as [Hza Hzr].
    destruct relative; unfold Veq, to_vector; cbn [vx vy vz]; auto.
  - intros a b. reflexivity.
Qed.


(** ** Letters and axis groups *)

(** X6: a letter prints as one character and no two letters share it, so
    a token determines its letter and its number text: two letter-and-text
    tokens are the same string only for the same letter and the same
    text. *)
Theorem letter_of_token_unique :
  forall (l1 l2 : GCodeLetter) (s1 s2 : string),
    (letter_str l1 ++ s1 = letter_str l2 ++ s2 <-> l1 = l2 /\ s1 = s2) /\
    String.length (letter_str l1) = 1%nat.
Proof.
  intros l1 l2 s1 s2. split; [split|].
  - destruct l1, l2; cbn; intros H; inversion H; split; reflexivity.
  - intros [-> ->]. reflexivity.
  - destruct l1; reflexivity.
Qed.

Lemma append_nonempty (s t : string) : nonempty s = true -> nonempty (s ++ t) = true.
Proof. destruct s; [discriminate | reflexivity]. Qed.

(** A space-joined list of tokens is empty only when there is no token. *)
Lemma join_nonempty (t : string) (rest : list string) :
  nonempty t = true -> nonempty (join " " (t :: rest)) = true.
Proof.
  intros Ht. unfold join. cbn [String.concat].
  destruct rest; [exact Ht | now apply append_nonempty].
Qed.

Lemma join_empty_iff (l : list string) :
  (forall t, In t l -> nonempty t = true) ->
  (join " " l = "" <-> l = []).
Proof.
  intros Hl. split; [|intros ->; reflexivity].
  destruct l as [|t rest]; [reflexivity|].
  intros H. pose proof (join_nonempty t rest (Hl t (or_introl eq_refl))) as Hn.
  rewrite H in Hn. discriminate.
Qed.

Lemma xyz_tokens_nonempty (float_repr : Q -> string) (l : GCodeLetter) (a : option Q)
    (p : Z) (t : string) :
  In t (xyz_tokens float_repr l a p) -> nonempty t = true.
Proof.
  destruct a as [v|]; cbn; [|contradiction].
  intros [<-|[]]. apply coord_str_nonempty.
Qed.

Lemma ijk_tokens_nonempty (float_repr : Q -> string) (l : GCodeLetter) (a : option Q)
    (p : Z) (t : string) :
  In t (ijk_tokens float_repr l a p) -> nonempty t = true.
Proof.
  destruct a as [v|]; cbn; [|contradiction].
  destruct (Qeq_bool v 0); cbn; [contradiction|].
  intros [<-|[]]. apply coord_str_nonempty.
Qed.

Lemma xyz_tokens_nil (float_repr : Q -> string) (l : GCodeLetter) (a : option Q) (p : Z) :
  xyz_tokens float_repr l a p = [] <-> a = None.
Proof. destruct a; cbn; split; intros H; try discriminate; reflexivity. Qed.

Lemma ijk_tokens_nil (float_repr : Q -> string) (l : GCodeLetter) (a : option Q) (p : Z) :
  ijk_tokens float_repr l a p = [] <-> (a = None \/ exists v, a = Some v /\ v == 0).
Proof.
  destruct a as [v|]; cbn.
  - destruct (Qeq_bool v 0) eqn:E; split; intros H; try discriminate.
    + right. exists v. split; [reflexivity|]. now apply Qeq_bool_iff.
    + reflexivity.
    + destruct H as [H|(w & Hw & Hz)]; [discriminate|].
      injection Hw as <-. apply Qeq_bool_iff in Hz. congruence.
  - split; auto.
Qed.

(** X7: an XYZ group prints the empty string exactly when no axis is
    specified, and an IJK group exactly when every axis is unspecified or
    zero: a center that coincides with nothing but zeros gives an arc no
    I, J or K word at all. *)
Theorem group_prints_nothing_iff :
  forall (float_repr : Q -> string) (v : AddressVector) (precision : Z),
    (group_str float_repr (XYZ v precision) = "" <->
     x v = None /\ y v = None /\ z v = None) /\
    (group_str float_repr (IJK v precision) = "" <->
     (x v = None \/ exists c, x v = Some c /\ c == 0) /\
     (y v = None \/ exists c, y v = Some c /\ c == 0) /\
     (z v = None \/ exists c, z v = Some c /\ c == 0)).
Proof.
  intros float_repr v p. split.
  - rewrite group_str_filter.
    unfold XYZ, XAxis, YAxis, ZAxis; cbn [axis_1 axis_2 axis_3 slot_str].
    rewrite !filter_xyz_slot. cbn [filter]. rewrite app_nil_r.
    rewrite join_empty_iff.
    + split.
      * intros H. apply app_eq_nil in H. destruct H as [Hx H].
        apply app_eq_nil in H. destruct H as [Hy Hz].
        now rewrite xyz_tokens_nil in Hx, Hy, Hz.
      * intros (Hx & Hy & Hz). now rewrite Hx, Hy, Hz.
    + intros t Ht. apply in_app_or in Ht. destruct Ht as [Ht|Ht];
        [|apply in_app_or in Ht; destruct Ht as [Ht|Ht]];
        eapply xyz_tokens_nonempty; eassumption.
  - rewrite IJK_str_tokens, join_empty_iff.
    + split.
      * intros H. apply app_eq_nil in H. destruct H as [Hx H].
        apply app_eq_nil in H. destruct H as [Hy Hz].
        now rewrite ijk_tokens_nil in Hx, Hy, Hz.
      * intros (Hx & Hy & Hz).
        apply (ijk_tokens_nil float_repr LArcXAxis _ p) in Hx.
        apply (ijk_tokens_nil float_repr LArcYAxis _ p) in Hy.
        apply (ijk_tokens_nil float_repr LArcZAxis _ p) in Hz.
        now rewrite Hx, Hy, Hz.
    + intros t Ht. apply in_app_or in Ht. destruct Ht as [Ht|Ht];
        [|apply in_app_or in Ht; destruct Ht as [Ht|Ht]];
        eapply ijk_tokens_nonempty; eassumption.
Qed.

(** ** The ordering loop, beyond C1 *)

Lemma Qsquare_nonneg (u : Q) : 0 <= u * u.
Proof. destruct u as [n d]. unfold Qle, Qmult; cbn. nia. Qed.

Lemma dist2_nonneg (a b : point) : 0 <= dist2 a b.
Proof.
  unfold dist2.
  replace 0 with (0 + 0) by reflexivity.
  apply Qplus_le_compat; apply Qsquare_nonneg.
Qed.

(** Squares that sum to nothing are nothing. *)
Lemma Qsquares_zero (u v : Q) : u * u + v * v <= 0 -> u == 0 /\ v == 0.
Proof.
  destruct u as [n d], v as [m e]. unfold Qle, Qeq, Qplus, Qmult; cbn.
  intros H. split; nia.
Qed.

(** Comparing the distances compares their squares. *)
Lemma euclid_le_dist2 (a b c : point) :
  (euclid a b <= euclid a c)%R -> dist2 a b <= dist2 a c.
Proof.
  unfold euclid. intros H. apply Rle_Qle. apply sqrt_le_0; [| |exact H].
  - replace 0%R with (Q2R 0) by (unfold Q2R; cbn; apply Rmult_0_l).
    apply Qle_Rle, dist2_nonneg.
  - replace 0%R with (Q2R 0) by (unfold Q2R; cbn; apply Rmult_0_l).
    apply Qle_Rle, dist2_nonneg.
Qed.

Lemma nearest_chain_iff (a : point) (l : list point) :
  nearest_chain a l <-> nearest_chain2 a l.
Proof.
  revert a. induction l as [|b suf IH]; intros a; cbn [nearest_chain nearest_chain2].
  - tauto.
  - rewrite IH. split; intros [H Hc]; (split; [|exact Hc]); intros c Hin.
    + apply euclid_le_dist2, H, Hin.
    + apply dist2_le_euclid, H, Hin.
Qed.

(** The scan keeps its first option when nothing after it is strictly
    nearer. *)
Lemma pick_nearest_from_keeps (a best : point) (rest : list point) :
  (forall c, In c rest -> dist2 a best <= dist2 a c) ->
  pick_nearest_from a best rest = best.
Proof.
  induction rest as [|c rest IH]; intros H; cbn [pick_nearest_from]; [reflexivity|].
  assert (E : Qle_bool (dist2 a best) (dist2 a c) = true)
    by (apply Qle_bool_iff, H; now left).
  rewrite E. apply IH. intros d Hd. apply H. now right.
Qed.

(** On a chain the loop visits the points in the order they stand in. *)
Lemma order_loop_chain (tail : list point) :
  forall (a : point) (ordered : list point) (fuel : nat),
    (List.length tail <= fuel)%nat ->
    nearest_chain2 a tail ->
    order_loop fuel (Some a) tail ordered = Some (ordered ++ tail)%list.
Proof.
  induction tail as [|r t IH]; intros a ordered fuel Hlen Hc.
  - destruct fuel; cbn; now rewrite app_nil_r.
  - destruct fuel as [|fuel]; [cbn in Hlen; lia|].
    destruct Hc as [Hmin Hc].
    cbn [order_loop _pick_nearest].
    rewrite pick_nearest_from_keeps by (intros c Hin; apply Hmin; now right).
    cbn [index]. rewrite point_eqb_refl. cbn [pop].
    rewrite IH; [|cbn in Hlen; lia|exact Hc].
    now rewrite <- app_assoc.
Qed.

Lemma order_drill_points_chain (p : point) (tail : list point) :
  nearest_chain2 p tail -> order_drill_points (p :: tail) = Some (p :: tail).
Proof.
  intros Hc. unfold order_drill_points. cbn [List.length order_loop index].
  rewrite point_eqb_refl. cbn [pop].
  now rewrite order_loop_chain.
Qed.

(** A chain without ties is a chain. *)
Lemma strictly_nearest_chain2 (l : list point) :
  forall a : point, strictly_nearest_chain a l -> nearest_chain2 a l.
Proof.
  induction l as [|b suf IH]; intros a; cbn [strictly_nearest_chain nearest_chain2];
    [trivial|].
  intros [H Hc]. split; [|now apply IH].
  intros c [<-|Hin]; [apply Qle_refl | now apply Qlt_le_weak, H].
Qed.

(** X8: the lists the ordering leaves as they are.  A list that comes
    back in the order it was given in is a nearest-neighbour chain; and a
    list in which each point after the first is strictly nearer to the
    point before it than every point after it, so that no choice is ever
    tied, comes back unchanged. *)
Theorem order_drill_points_fixed_point :
  (forall (p : point) (tail : list point),
      order_drill_points (p :: tail) = Some (p :: tail) -> nearest_chain p tail) /\
  (forall (p : point) (tail : list point),
      strictly_nearest_chain p tail ->
      order_drill_points (p :: tail) = Some (p :: tail)).
Proof.
  split; intros p tail H.
  - destruct (order_drill_points_some p tail) as (tail' & Hrun & _ & Hc).
    rewrite Hrun in H. injection H as <-. exact Hc.
  - apply order_drill_points_chain. now apply strictly_nearest_chain2.
Qed.

(** A point that Python's [==] identifies with the one just visited is at
    distance zero from it. *)
Lemma point_eqb_dist2_zero (a c : point) : point_eqb a c = true -> dist2 a c == 0.
Proof.
  unfold point_eqb, dist2. intros H. apply andb_prop in H. destruct H as [H1 H2].
  apply Qeq_bool_iff in H1. apply Qeq_bool_iff in H2. rewrite H1, H2. ring.
Qed.

Lemma dist2_zero_point_eqb (a b : point) : dist2 a b <= 0 -> point_eqb a b = true.
Proof.
  unfold dist2, point_eqb. intros H. apply Qsquares_zero in H. destruct H as [H1 H2].
  apply andb_true_intro. split; apply Qeq_bool_iff.
  - rewrite <- (Qplus_0_r (fst b)), <- H1. ring.
  - rewrite <- (Qplus_0_r (snd b)), <- H2. ring.
Qed.

(** In a chain, a point equal to the one before the chain makes the first
    point of the chain equal to it too. *)
Lemma nearest_chain2_equal_next (a b c : point) (suf : list point) :
  nearest_chain2 a (b :: suf) -> In c (b :: suf) -> point_eqb a c = true ->
  point_eqb a b = true.
Proof.
  intros [Hmin _] Hin Heq. apply dist2_zero_point_eqb.
  rewrite <- (point_eqb_dist2_zero a c Heq). now apply Hmin.
Qed.

(** A chain read from any of its points on is a chain. *)
Lemma nearest_chain2_from (pre : list point) :
  forall (p : point) (tail : list point) (a : point) (rest : list point),
    nearest_chain2 p tail ->
    (p :: tail = pre ++ a :: rest)%list ->
    nearest_chain2 a rest.
Proof.
  induction pre as [|q pre IH]; intros p tail a rest Hc Heq; cbn [app] in Heq.
  - injection Heq as <- <-. exact Hc.
  - injection Heq as <- ->.
    destruct (pre ++ a :: rest)%list as [|t0 tail'] eqn:E.
    + destruct pre; discriminate.
    + destruct Hc as [_ Hc]. exact (IH t0 tail' a rest Hc (eq_sym E)).
Qed.

(** X9: targets are not merged: the visiting order has the input's points
    with their multiplicities, and coincident targets are visited back to
    back: if a point equal to the one just visited is still to come, the
    very next point visited is equal to it. *)
Theorem coincident_targets_back_to_back :
  forall (p : point) (l : list point),
    exists tail,
      order_drill_points (p :: l) = Some (p :: tail) /\
      Permutation (p :: tail) (p :: l) /\
      forall (pre suf : list point) (a b c : point),
        (p :: tail = pre ++ a :: b :: suf)%list ->
        In c (b :: suf) -> point_eqb a c = true -> point_eqb a b = true.
Proof.
  intros p l. destruct (order_drill_points_some p l) as (tail & Hrun & Hperm & Hc).
  exists tail. split; [exact Hrun|]. split; [now apply perm_skip|].
  intros pre suf a b c Heq Hin Hac.
  apply nearest_chain_iff in Hc.
  exact (nearest_chain2_equal_next a b c suf
           (nearest_chain2_from pre p tail a (b :: suf) Hc Heq) Hin Hac).
Qed.

(** ** [Drill.__post_init__], beyond C2, C3 and C10 *)

(** The positions the forward pass reaches over a drilling program. *)
Lemma resolve_drill_program (safe feed_rate zcut : Q) :
  forall (targets : list point) (pos : Vector) (prev : AddressVector),
    resolve_chain pos (drill_program safe feed_rate zcut targets prev)
    = drill_positions safe zcut (vx pos, vy pos) targets.
Proof.
  induction targets as [|[px py] rest IH]; intros pos prev; [reflexivity|].
  cbn [drill_program target_commands app resolve_chain drill_positions
       to_vector end_ x y z vx vy vz fst snd].
  rewrite IH. reflexivity.
Qed.

Lemma last_cons_default {A : Type} (l : list A) :
  forall a d : A, List.last (a :: l) d = List.last l a.
Proof.
  induction l as [|b l IH]; intros a d; [reflexivity|].
  change (List.last (a :: b :: l) d) with (List.last (b :: l) d).
  now rewrite (IH b d), (IH b a).
Qed.

Lemma drill_positions_last (safe zcut : Q) :
  forall (targets : list point) (at_xy pt : point) (dflt : Vector),
    List.last (drill_positions safe zcut at_xy (pt :: targets)) dflt
    = mkVector (fst (List.last targets pt)) (snd (List.last targets pt)) zcut.
Proof.
  induction targets as [|pt' rest IH]; intros at_xy pt dflt; [reflexivity|].
  specialize (IH pt pt' dflt).
  cbn [drill_positions List.last] in IH |- *. rewrite IH.
  change (match rest with [] => pt' | _ :: _ => List.last rest pt end)
    with (List.last (pt' :: rest) pt).
  now rewrite (last_cons_default rest pt' pt).
Qed.

Section DrillMore.

Variables Wire Face Foreign OInput : Type.
Variable makeFromWires_Center : Wire -> Vector.
Variable innerWires : Face -> list Wire.
Variable outerWire : Face -> Wire.
Variable type_name : Foreign -> string.
Variable _o_objects : OInput -> list (obj Wire Face Foreign).

Local Abbreviation run :=
  (post_init makeFromWires_Center innerWires outerWire type_name _o_objects).
Local Abbreviation extracted :=
  (extract makeFromWires_Center innerWires outerWire type_name).
Local Abbreviation targets_of :=
  (shape_targets makeFromWires_Center innerWires outerWire).
Local Abbreviation xy := (fun p : Vector => (vx p, vy p)).

(** The extraction loop in closed form. *)
Lemma extract_closed (transform_f : Vector -> Vector) :
  forall (objs : list (obj Wire Face Foreign)) (acc : list Vector),
    extracted transform_f objs acc =
    match first_foreign objs with
    | Some t => inr (err_unsupported (type_name t))
    | None => inl (acc ++ map transform_f (flat_map targets_of objs))%list
    end.
Proof.
  induction objs as [|ob rest IH]; intros acc.
  - cbn. now rewrite app_nil_r.
  - destruct ob as [v|w|f|t]; cbn [extract first_foreign flat_map shape_targets].
    + rewrite IH. destruct (first_foreign rest); [reflexivity|].
      cbn [app map]. now rewrite <- app_assoc.
    + rewrite IH. destruct (first_foreign rest); [reflexivity|].
      cbn [app map]. now rewrite <- app_assoc.
    + destruct (innerWires f) as [|w ws] eqn:E.
      * rewrite IH. destruct (first_foreign rest); [reflexivity|].
        cbn [app map]. now rewrite <- app_assoc.
      * rewrite IH. destruct (first_foreign rest); [reflexivity|].
        rewrite map_app, map_map, <- app_assoc. reflexivity.
    + reflexivity.
Qed.

(** Every supported object stands for at least one target. *)
Lemma targets_at_least_objects (objs : list (obj Wire Face Foreign)) :
  first_foreign objs = None ->
  (List.length objs <= List.length (flat_map targets_of objs))%nat.
Proof.
  induction objs as [|ob rest IH]; intros Hf; [apply le_n|].
  destruct ob as [v|w|f|t]; cbn [first_foreign] in Hf; try discriminate;
    cbn [flat_map shape_targets]; rewrite length_app; specialize (IH Hf);
    cbn [List.length].
  - lia.
  - lia.
  - destruct (innerWires f); cbn [List.length map]; lia.
Qed.

(** X10: the extraction loop, in closed form: it fails at the first
    supplied object that is neither a point, a wire nor a face, naming its
    type, whatever stands before or after it; otherwise it appends, object
    by object and in order, the transformed targets of each one (one for a
    point or a wire, one per inner wire for a face that has some, one for a
    face that has none), so that it yields at least as many targets as
    there are objects. *)
Theorem extract_targets_in_order :
  forall (transform_f : Vector -> Vector) (objs : list (obj Wire Face Foreign))
         (acc : list Vector),
    extracted transform_f objs acc =
    match first_foreign objs with
    | Some t => inr (err_unsupported (type_name t))
    | None => inl (acc ++ map transform_f (flat_map targets_of objs))%list
    end /\
    (first_foreign objs = None ->
     (List.length objs <= List.length (flat_map targets_of objs))%nat) /\
    (forall (pre post : list (obj Wire Face Foreign)) (t : Foreign),
        first_foreign pre = None ->
        first_foreign (pre ++ OForeign t :: post) = Some t).
Proof.
  intros tf objs acc. split; [apply extract_closed|]. split.
  - apply targets_at_least_objects.
  - induction pre as [|ob pre IH]; intros post t Hf; [reflexivity|].
    destruct ob; cbn [first_foreign app] in Hf |- *; try discriminate; now apply IH.
Qed.

(** How a run ends is decided by the inputs alone. *)
Lemma post_init_outcome (self : Drill OInput) :
  snd (run self) = expected_outcome type_name _o_objects self.
Proof.
  unfold expected_outcome.
  destruct (o self) as [oi|] eqn:Ho.
  2:{ unfold post_init. cbn [job o depth previous_pos commands]. now rewrite Ho. }
  destruct (depth self) as [d|] eqn:Hd.
  2:{ unfold post_init. cbn [job o depth previous_pos commands]. now rewrite Ho, Hd. }
  pose proof (extract_closed (toWorldCoords (job self)) (_o_objects oi) []) as Hx.
  destruct (first_foreign (_o_objects oi)) as [t|] eqn:Hf.
  - unfold post_init. cbn [job o depth previous_pos commands]. now rewrite Ho, Hd, Hx.
  - cbn [app] in Hx.
    pose proof (targets_at_least_objects (_o_objects oi) Hf) as Hlen.
    destruct (_o_objects oi) as [|ob rest] eqn:Hobjs.
    + unfold post_init. cbn [job o depth previous_pos commands].
      rewrite Ho, Hd, Hobjs. reflexivity.
    + destruct (flat_map targets_of (ob :: rest)) as [|v vs] eqn:Hts;
        [cbn in Hlen; lia|].
      cbn [map] in Hx. rewrite <- Hobjs in Hx.
      destruct (post_init_returns Wire Face Foreign OInput makeFromWires_Center
                  innerWires outerWire type_name _o_objects self oi d _ _ Ho Hd Hx)
        as (tail & _ & _ & Hrun).
      now rewrite Hrun.
Qed.

(** X11: how [__post_init__] ends is decided by its inputs, in the order
    of its checks: a missing [o] first, then a missing depth, then the
    first unsupported object, then an empty object list; in every other
    case it returns.  In particular construction succeeds for every
    non-empty list of points, wires and faces with a depth, and the
    [while] loop never fails to find or pop the point it picked. *)
Theorem post_init_outcome_table :
  forall self : Drill OInput,
    snd (run self) = expected_outcome type_name _o_objects self /\
    snd (run self) <> Stuck /\
    (forall (oi : OInput) (d : Q) (ob : obj Wire Face Foreign)
            (rest : list (obj Wire Face Foreign)),
        o self = Some oi -> depth self = Some d ->
        _o_objects oi = ob :: rest -> first_foreign (ob :: rest) = None ->
        snd (run self) = Returned).
Proof.
  intros self. split; [apply post_init_outcome|]. split.
  - rewrite post_init_outcome. unfold expected_outcome.
    destruct (o self) as [oi|]; [|discriminate].
    destruct (depth self); [|discriminate].
    destruct (first_foreign (_o_objects oi)); [discriminate|].
    destruct (_o_objects oi); discriminate.
  - intros oi d ob rest Ho Hd Hobjs Hf. rewrite post_init_outcome.
    unfold expected_outcome. now rewrite Ho, Hd, Hobjs, Hf.
Qed.

(** What a run leaves, whatever its end. *)
Lemma post_init_frame (self : Drill OInput) :
  job (fst (run self)) = job self /\
  o (fst (run self)) = o self /\
  depth (fst (run self)) = depth self /\
  exists pos, previous_pos (fst (run self)) = Some pos.
Proof.
  unfold post_init. cbn [job o depth previous_pos commands].
  destruct (o self) as [oi|]; [|cbn; eauto].
  destruct (depth self) as [d|]; [|cbn; eauto].
  destruct (extracted (toWorldCoords (job self)) (_o_objects oi) []) as [[|v vs]|e];
    [cbn; eauto| |cbn; eauto].
  destruct (order_drill_points (map xy (v :: vs))); [|cbn; eauto].
  destruct (cut_loop (job self) (- Qabs d) l _ []). cbn; eauto.
Qed.

(** X12: [__post_init__] never changes the job, [o] or the depth, and
    always leaves a [previous_pos]; the command list the object had
    before plays no part: with any other list the run ends the same way
    and, when it returns, leaves the same commands and position. *)
Theorem post_init_frame_and_independence :
  forall (self : Drill OInput) (cs : list Command),
    job (fst (run self)) = job self /\
    o (fst (run self)) = o self /\
    depth (fst (run self)) = depth self /\
    (exists pos, previous_pos (fst (run self)) = Some pos) /\
    snd (run (with_commands self cs)) = snd (run self) /\
    previous_pos (fst (run (with_commands self cs))) = previous_pos (fst (run self)) /\
    (snd (run self) = Returned ->
     fst (run (with_commands self cs)) = fst (run self)).
Proof.
  intros self cs.
  destruct (post_init_frame self) as (Hj & Ho & Hd & Hp).
  repeat (split; [assumption|]).
  unfold post_init, with_commands. cbn [job o depth previous_pos commands].
  destruct (o self) as [oi|]; [|repeat split; discriminate].
  destruct (depth self) as [d|]; [|repeat split; discriminate].
  destruct (extracted (toWorldCoords (job self)) (_o_objects oi) []) as [[|v vs]|e];
    [repeat split; discriminate| |repeat split; discriminate].
  destruct (order_drill_points (map xy (v :: vs))); [|repeat split; discriminate].
  destruct (cut_loop (job self) (- Qabs d) l _ []). repeat split.
Qed.

(** X13: the tool path of a constructed Drill.  Resolved from any machine
    position by the forward pass, its commands take the tool, for each
    target in visiting order, straight up to the safe height, across to
    the target at that height, down to Z = 0 and down to Z = -|d|, which is
    never above the surface; no retract follows the last plunge, so the
    pass ends over the last target at Z = -|d|. *)
Theorem drill_tool_path (self self' : Drill OInput) (pos0 : Vector) :
  run self = (self', Returned) ->
  exists (d : Q) (first : point) (others : list point),
    depth self = Some d /\
    commands self' =
      drill_program (op_safe_height (job self)) (job_feed (job self)) (- Qabs d)
        (first :: others) (initial_pos self) /\
    resolve_chain pos0 (commands self')
    = drill_positions (op_safe_height (job self)) (- Qabs d) (vx pos0, vy pos0)
        (first :: others) /\
    List.last (resolve_chain pos0 (commands self')) pos0
    = mkVector (fst (List.last others first)) (snd (List.last others first)) (- Qabs d) /\
    - Qabs d <= 0.
Proof.
  intros Hret.
  destruct (post_init_returned_inv Wire Face Foreign OInput makeFromWires_Center
              innerWires outerWire type_name _o_objects self self' Hret)
    as (oi & d & v & vs & Ho & Hd & Hx).
  destruct (post_init_returns Wire Face Foreign OInput makeFromWires_Center
              innerWires outerWire type_name _o_objects self oi d v vs Ho Hd Hx)
    as (tail & _ & _ & Hrun).
  pose proof (f_equal fst (eq_trans (eq_sym Hrun) Hret)) as E.
  cbn [fst] in E. subst self'. cbn [commands].
  exists d, (xy v), tail. split; [exact Hd|]. split; [reflexivity|].
  rewrite resolve_drill_program. split; [reflexivity|]. split.
  - apply drill_positions_last.
  - apply (Qopp_le_compat 0). apply Qabs_nonneg.
Qed.

End DrillMore.

(** ** [circle_bug_workaround] *)

Section CircleBugProperties.

Variable Location : Type.
Variable Inverted : Location -> Location.

Local Abbreviation workaround := (circle_bug_workaround Inverted).

(** The inner loop in closed form: from index [i] on, the flag is raised by
    a circle among the edges whose index is below [n]. *)
Lemma scan_edges_closed (n : nat) :
  forall (edges : list string) (i : nat) (acc : bool),
    scan_edges n i edges acc
    = acc || existsb (fun e => String.eqb e "CIRCLE") (firstn (n - i) edges).
Proof.
  induction edges as [|e rest IH]; intros i acc; cbn [scan_edges].
  - now rewrite firstn_nil, orb_false_r.
  - rewrite IH. destruct (Nat.ltb i n) eqn:E.
    + apply Nat.ltb_lt in E. replace (n - i)%nat with (S (n - S i)) by lia.
      cbn [firstn existsb].
      destruct (String.eqb e "CIRCLE"); cbn [orb]; [now rewrite orb_true_r | reflexivity].
    + apply Nat.ltb_ge in E.
      replace (n - i)%nat with 0%nat by lia. replace (n - S i)%nat with 0%nat by lia.
      cbn [firstn existsb]. now destruct (String.eqb e "CIRCLE").
Qed.

Lemma scan_edges_circle_within (n : nat) (edges : list string) :
  scan_edges n 0 edges false = circle_within n edges.
Proof. rewrite scan_edges_closed, Nat.sub_0_r. reflexivity. Qed.

(** No edge list is ever changed. *)
Lemma workaround_edges (source : nat) :
  forall (targets : list nat) (h : wire_store Location) (j : nat),
    edge_types (workaround h source targets j) = edge_types (h j).
Proof.
  induction targets as [|t rest IH]; intros h j; cbn [circle_bug_workaround];
    [reflexivity|].
  rewrite IH.
  destruct (scan_edges _ 0 (edge_types (h t)) false); [|reflexivity].
  unfold store_set. destruct (Nat.eqb j t) eqn:E; [|reflexivity].
  apply Nat.eqb_eq in E. now subst.
Qed.

(** A wire that is not a target is left as it is. *)
Lemma workaround_untouched (source : nat) :
  forall (targets : list nat) (h : wire_store Location) (j : nat),
    ~ In j targets -> workaround h source targets j = h j.
Proof.
  induction targets as [|t rest IH]; intros h j Hj; cbn [circle_bug_workaround];
    [reflexivity|].
  rewrite IH by (intros Hin; apply Hj; now right).
  destruct (scan_edges _ 0 (edge_types (h t)) false); [|reflexivity].
  unfold store_set. destruct (Nat.eqb j t) eqn:E; [|reflexivity].
  apply Nat.eqb_eq in E. subst. exfalso. apply Hj. now left.
Qed.

(** A source without edges calls for no fix. *)
Lemma workaround_no_source_edges (source : nat) :
  forall (targets : list nat) (h : wire_store Location),
    edge_types (h source) = [] ->
    forall j, workaround h source targets j = h j.
Proof.
  induction targets as [|t rest IH]; intros h Hs j; cbn [circle_bug_workaround];
    [reflexivity|].
  rewrite Hs, scan_edges_circle_within. cbn [List.length circle_within firstn existsb].
  now apply IH.
Qed.

(** The whole function in closed form, when the source is not one of the
    targets. *)
Lemma workaround_closed (source : nat) :
  forall (targets : list nat) (h : wire_store Location) (j : nat),
    ~ In source targets ->
    workaround h source targets j =
    if existsb (Nat.eqb j) targets
       && circle_within (List.length (edge_types (h source))) (edge_types (h j))
    then mkWire (edge_types (h j)) (Inverted (location (h source)))
    else h j.
Proof.
  induction targets as [|t rest IH]; intros h j Hs; cbn [circle_bug_workaround existsb];
    [reflexivity|].
  assert (Hts : t <> source) by (intros ->; apply Hs; now left).
  assert (Hrest : ~ In source rest) by (intros Hin; apply Hs; now right).
  rewrite (IH _ j Hrest), scan_edges_circle_within.
  destruct (circle_within (List.length (edge_types (h source))) (edge_types (h t))) eqn:Ht.
  - unfold store_set.
    assert (Es : Nat.eqb source t = false) by (apply Nat.eqb_neq; congruence).
    rewrite Es.
    destruct (Nat.eqb j t) eqn:E.
    + apply Nat.eqb_eq in E. subst j. cbn [edge_types orb andb]. rewrite Ht.
      now destruct (existsb (Nat.eqb t) rest).
    + cbn [orb]. reflexivity.
  - destruct (Nat.eqb j t) eqn:E; [|reflexivity].
    apply Nat.eqb_eq in E. subst j. cbn [orb andb]. rewrite Ht.
    now destruct (existsb (Nat.eqb t) rest).
Qed.

(** X14: with a source that is not among the targets,
    [circle_bug_workaround] moves a wire exactly when it is a target with a
    circle among its first [n] edges, [n] being the number of edges the
    source has; every wire it moves gets the inverse of the source's
    location and keeps its edges, every other wire is left as it is; and
    running it a second time changes nothing more. *)
Theorem circle_bug_workaround_effect (h : wire_store Location) (source : nat)
    (targets : list nat) :
  ~ In source targets ->
  (forall j : nat,
      workaround h source targets j =
      if existsb (Nat.eqb j) targets
         && circle_within (List.length (edge_types (h source))) (edge_types (h j))
      then mkWire (edge_types (h j)) (Inverted (location (h source)))
      else h j) /\
  (forall j : nat,
      workaround (workaround h source targets) source targets j
      = workaround h source targets j).
Proof.
  intros Hs. split; [intros j; now apply workaround_closed|].
  intros j. rewrite (workaround_closed source targets (workaround h source targets) j Hs).
  rewrite (workaround_untouched source targets h source Hs).
  rewrite workaround_edges.
  rewrite (workaround_closed source targets h j Hs).
  destruct (existsb (Nat.eqb j) targets
            && circle_within (List.length (edge_types (h source))) (edge_types (h j)));
    reflexivity.
Qed.

(** X15: whatever the source and the targets are, the same wire or not,
    [circle_bug_workaround] never changes the edges of a wire and never
    touches a wire that is not a target; a circle whose index is not below
    the number of source edges does not count, so with a source that has no
    edge, or with targets that have no circle among their first edges,
    nothing is moved at all. *)
Theorem circle_bug_workaround_frame :
  forall (h : wire_store Location) (source : nat) (targets : list nat),
    (forall j, edge_types (workaround h source targets j) = edge_types (h j)) /\
    (forall j, ~ In j targets -> workaround h source targets j = h j) /\
    (edge_types (h source) = [] -> forall j, workaround h source targets j = h j) /\
    (forall (n i : nat) (edges : list string),
        scan_edges n i edges false
        = existsb (fun e => String.eqb e "CIRCLE") (firstn (n - i) edges)) /\
    (forall edges : list string, scan_edges 0 0 edges false = false).
Proof.
  intros h source targets. split; [|split; [|split; [|split]]].
  - apply workaround_edges.
  - apply workaround_untouched.
  - apply workaround_no_source_edges.
  - intros n i edges. now rewrite scan_edges_closed.
  - intros edges. now rewrite scan_edges_closed.
Qed.

End CircleBugProperties.

(** ** Fixed-precision words: what [round] does to the address *)










(** ** Instances of the further properties *)

(** X13 at [sample_drill], from the machine position (1, 2, 50). *)
Lemma drill_tool_path_witness :
  sample_post_init sample_drill = (sample_built, Returned) /\
  exists (d : Q) (first : point) (others : list point),
    depth sample_drill = Some d /\
    commands sample_built =
      drill_program (op_safe_height (job sample_drill)) (job_feed (job sample_drill))
        (- Qabs d) (first :: others) (initial_pos sample_drill) /\
    resolve_chain (mkVector 1 (2 # 1) (50 # 1)) (commands sample_built)
    = drill_positions (op_safe_height (job sample_drill)) (- Qabs d) (1, 2 # 1)
        (first :: others) /\
    List.last (resolve_chain (mkVector 1 (2 # 1) (50 # 1)) (commands sample_built))
              (mkVector 1 (2 # 1) (50 # 1))
    = mkVector (fst (List.last others first)) (snd (List.last others first)) (- Qabs d) /\
    - Qabs d <= 0.
Proof.
  split; [reflexivity|].
  exact (drill_tool_path Vector (list Vector * Vector) string (list sample_obj)
           (fun w => w) fst snd (fun t => t) (fun l => l)
           sample_drill sample_built (mkVector 1 (2 # 1) (50 # 1)) eq_refl).
Defined.

(** X14 on [sample_store], with the source at address 0 and the targets
    1, 2 and 1 again: wire 1 is moved to -5, wire 2, whose circle is its
    third edge, is not. *)
Lemma circle_bug_workaround_effect_witness :
  ~ In 0%nat [1%nat; 2%nat; 1%nat] /\
  (forall j : nat,
      circle_bug_workaround Z.opp sample_store 0 [1%nat; 2%nat; 1%nat] j =
      if existsb (Nat.eqb j) [1%nat; 2%nat; 1%nat]
         && circle_within (List.length (edge_types (sample_store 0%nat)))
                          (edge_types (sample_store j))
      then mkWire (edge_types (sample_store j)) (Z.opp (location (sample_store 0%nat)))
      else sample_store j) /\
  (forall j : nat,
      circle_bug_workaround Z.opp
        (circle_bug_workaround Z.opp sample_store 0 [1%nat; 2%nat; 1%nat])
        0 [1%nat; 2%nat; 1%nat] j
      = circle_bug_workaround Z.opp sample_store 0 [1%nat; 2%nat; 1%nat] j).
Proof.
  assert (Hs : ~ In 0%nat [1%nat; 2%nat; 1%nat]).
  { intros [H|[H|[H|[]]]]; discriminate H. }
  split; [exact Hs|].
  exact (circle_bug_workaround_effect Z Z.opp sample_store 0 [1%nat; 2%nat; 1%nat] Hs).
Defined.

(** The workaround on [sample_store], wire by wire; with the source among
    the targets, a later target gets the inverse of the location the source
    was just given. *)
Example circle_bug_workaround_sample :
  location (circle_bug_workaround Z.opp sample_store 0 [1%nat; 2%nat] 1%nat) = (-5)%Z /\
  location (circle_bug_workaround Z.opp sample_store 0 [1%nat; 2%nat] 2%nat) = 2%Z /\
  location (circle_bug_workaround Z.opp sample_store 0 [0%nat; 1%nat] 0%nat) = (-5)%Z /\
  location (circle_bug_workaround Z.opp sample_store 0 [0%nat; 1%nat] 1%nat) = 5%Z /\
  location (circle_bug_workaround Z.opp sample_store 0 [1%nat; 0%nat] 1%nat) = (-5)%Z.
Proof. repeat split. Qed.

(** [==] on sample vectors. *)
Example AddressVector_eq_sample :
  AddressVector_eq (mkAddressVector (Some (1 # 2)) None (Some 0))
                   (object_of_address (mkAddressVector (Some (2 # 4)) None (Some 0)))
  = EqBool true /\
  AddressVector_eq (mkAddressVector (Some 1) None None)
                   (mkObject (Has (Some (2 # 1))) Missing Missing)
  = EqBool false /\
  AddressVector_eq (mkAddressVector (Some 1) None None)
                   (mkObject (Has (Some 1)) Missing Missing)
  = NotImplemented /\
  AddressVector_eq (mkAddressVector (Some 1) (Some (2 # 1)) (Some (3 # 1)))
                   (object_of_vector (mkVector 1 (2 # 1) (3 # 1)))
  = EqBool true.
Proof. repeat split. Qed.

(** The text [float_repr_decimal] gives is never empty. *)
Lemma float_repr_decimal_nonempty (q : Q) : nonempty (float_repr_decimal q) = true.
Proof.
  unfold float_repr_decimal.
  destruct (Qle_bool 0 q); [|reflexivity].
  cbn [append]. apply append_nonempty, str_int_nonempty.
Qed.

(** C8 with Python-like float text: the text of every number is non-empty,
    and an XYZ group with Y unspecified prints the X and Z tokens only. *)
Lemma unspecified_word_prints_nothing_witness :
  (forall q : Q, nonempty (float_repr_decimal q) = true) /\
  (forall n : pynum, nonempty (str_num float_repr_decimal n) = true) /\
  group_str float_repr_decimal
    (XYZ (mkAddressVector (Some (3 # 2)) None (Some (-2 # 1))) 3)
  = "X1.5 Z-2".
Proof.
  destruct (unspecified_word_prints_nothing float_repr_decimal)
    as (_ & _ & _ & _ & _ & _ & Hnum).
  split; [exact float_repr_decimal_nonempty|].
  split; [exact (Hnum float_repr_decimal_nonempty) | reflexivity].
Defined.

(** X8 on the collinear points A, B, C: no choice is tied, so the list
    comes back as it was given. *)
Lemma order_drill_points_fixed_point_witness :
  strictly_nearest_chain (0, 0) [(5 # 1, 0); (10 # 1, 0)] /\
  order_drill_points [(0, 0); (5 # 1, 0); (10 # 1, 0)]
  = Some [(0, 0); (5 # 1, 0); (10 # 1, 0)].
Proof.
  assert (H : strictly_nearest_chain (0, 0) [(5 # 1, 0); (10 # 1, 0)]).
  { cbn [strictly_nearest_chain]. split; [|split; [|exact I]].
    - intros c [<-|[]]. reflexivity.
    - intros c []. }
  split; [exact H|].
  exact (proj2 order_drill_points_fixed_point (0, 0) [(5 # 1, 0); (10 # 1, 0)] H).
Defined.
